(** * fork-off-substrate: the chunked state fetcher and the spec splicer

    A shallow embedding of [index.js].  The script downloads the storage of a
    live chain through [state_getPairs], one range query per leaf chunk of a
    256-ary prefix tree, streams the pairs into one JSON array, and then
    splices the pairs selected by a prefix list into a development chain
    specification, followed by a fixed deletion and fixed assignments.

    Conventions of the embedding:
    - JavaScript strings are [string]s, that is, sequences of code units
      below 256; the hexadecimal keys and values of the node are of this
      kind.
    - The module-level variables of the script ([separator],
      [chunksFetched], [prefixes]) and the local variables of [main] are
      fields of explicit state records, threaded through the statements.
    - The storage map [genesis.raw.top] is a [gmap string string]; its keys
      are storage keys, and the special property names of JavaScript objects
      are not modelled.
    - The node, the metadata, the hash function and the order in which
      concurrent answers arrive are parameters.
    - [levelsRemaining] is a natural number: the script starts from a depth
      of at least 0 and counts down by one. *)

From Stdlib Require Import String Ascii List ZArith Lia Permutation Bool.
From Stdlib Require Import Sorted.
From stdpp Require Import gmap strings.
Import ListNotations.

Local Open Scope string_scope.
Local Open Scope list_scope.

(** ** JavaScript string primitives used by the script *)

Module JS.

(** [s.startsWith(p)] *)
Definition startsWith (s p : string) : bool := String.prefix p s.

(** One digit of [Number.prototype.toString(16)]. *)
Definition hexDigit (d : nat) : ascii :=
  match d with
  | 0 => "0" | 1 => "1" | 2 => "2" | 3 => "3" | 4 => "4" | 5 => "5"
  | 6 => "6" | 7 => "7" | 8 => "8" | 9 => "9" | 10 => "a" | 11 => "b"
  | 12 => "c" | 13 => "d" | 14 => "e" | _ => "f"
  end%char.

Fixpoint toString16_aux (fuel n : nat) (acc : string) : string :=
  match fuel with
  | 0 => acc
  | S fuel' =>
      let acc' := String (hexDigit (n mod 16)) acc in
      if (n / 16 =? 0)%nat then acc' else toString16_aux fuel' (n / 16) acc'
  end.

(** [n.toString(16)] for a non-negative integer [n]. *)
Definition toString16 (n : nat) : string := toString16_aux (S n) n "".

(** [pad] repeated and cut to exactly [n] characters (empty when [pad] is). *)
Fixpoint filler (fuel n : nat) (pad : string) : string :=
  match fuel with
  | 0 => ""
  | S fuel' =>
      if (n <=? String.length pad)%nat then substring 0 n pad
      else pad +:+ filler fuel' (n - String.length pad) pad
  end.

(** [s.padStart(targetLength, pad)] *)
Definition padStart (targetLength : nat) (pad : string) (s : string) : string :=
  if (targetLength <=? String.length s)%nat then s
  else if (String.length pad =? 0)%nat then s
  else filler targetLength (targetLength - String.length s) pad +:+ s.

(** [s.slice(start, end)], negative indices counting from the end. *)
Definition slice (start end_ : Z) (s : string) : string :=
  let len := Z.of_nat (String.length s) in
  let from := if (start <? 0)%Z then Z.max (len + start) 0 else Z.min start len in
  let to := if (end_ <? 0)%Z then Z.max (len + end_) 0 else Z.min end_ len in
  substring (Z.to_nat from) (Z.to_nat (Z.max (to - from) 0)) s.

(** White space of [String.prototype.trim] among the code units below 256:
    TAB, LF, VT, FF, CR, SP and NBSP. *)
Definition isWhiteSpace (c : ascii) : bool :=
  let n := nat_of_ascii c in
  ((n =? 9) || (n =? 10) || (n =? 11) || (n =? 12) || (n =? 13)
   || (n =? 32) || (n =? 160))%nat.

Fixpoint trimStart (s : string) : string :=
  match s with
  | String c s' => if isWhiteSpace c then trimStart s' else s
  | EmptyString => EmptyString
  end.

Fixpoint trimEnd (s : string) : string :=
  match s with
  | String c s' =>
      match trimEnd s' with
      | EmptyString => if isWhiteSpace c then EmptyString else String c EmptyString
      | t => String c t
      end
  | EmptyString => EmptyString
  end.

(** [s.trim()] *)
Definition trim (s : string) : string := trimEnd (trimStart s).

(** [a.join(sep)] on an array of strings. *)
Fixpoint join (sep : string) (l : list string) : string :=
  match l with
  | [] => ""
  | [x] => x
  | x :: l' => x +:+ sep +:+ join sep l'
  end.

End JS.

(** ** JSON texts

    The snapshot file is written with [JSON.stringify] and read back with
    [JSON.parse].  Both are modelled on the fragment of JSON values the file
    is made of: strings and arrays. *)

Module JSON.

#[local] Unset Elimination Schemes.
Inductive value : Type :=
| JStr (s : string)
| JArr (l : list value).
#[local] Set Elimination Schemes.

Definition dquote : ascii := ascii_of_nat 34.
Definition backslash : ascii := ascii_of_nat 92.

(** One code unit of [QuoteJSONString]: the two-character escapes, a
    [\u00xx] escape for the other control characters, the character itself
    otherwise. *)
Definition quoteChar (c : ascii) : string :=
  let n := nat_of_ascii c in
  if (n =? 8)%nat then String backslash "b"
  else if (n =? 9)%nat then String backslash "t"
  else if (n =? 10)%nat then String backslash "n"
  else if (n =? 12)%nat then String backslash "f"
  else if (n =? 13)%nat then String backslash "r"
  else if (n =? 34)%nat then String backslash (String dquote "")
  else if (n =? 92)%nat then String backslash (String backslash "")
  else if (n <? 32)%nat then
    String backslash "u" +:+ JS.padStart 4 "0" (JS.toString16 n)
  else String c "".

Fixpoint quoteChars (s : string) : string :=
  match s with
  | EmptyString => EmptyString
  | String c s' => quoteChar c +:+ quoteChars s'
  end.

(** [QuoteJSONString] *)
Definition quote (s : string) : string :=
  String dquote (quoteChars s +:+ String dquote "").

(** [JSON.stringify(v)] without indentation. *)
Fixpoint stringify (v : value) : string :=
  match v with
  | JStr s => quote s
  | JArr l => "[" +:+ JS.join "," (map stringify l) +:+ "]"
  end.

(** Value of a hexadecimal digit of a [\u] escape. *)
Definition hexValue (c : ascii) : option nat :=
  let n := nat_of_ascii c in
  if ((48 <=? n) && (n <=? 57))%nat then Some (n - 48)
  else if ((97 <=? n) && (n <=? 102))%nat then Some (n - 87)
  else if ((65 <=? n) && (n <=? 70))%nat then Some (n - 55)
  else None.

(** The character a two-character escape stands for. *)
Definition unescape (c : ascii) : option ascii :=
  let n := nat_of_ascii c in
  if (n =? 34)%nat then Some dquote
  else if (n =? 92)%nat then Some backslash
  else if (n =? 47)%nat then Some "/"%char
  else if (n =? 98)%nat then Some (ascii_of_nat 8)
  else if (n =? 102)%nat then Some (ascii_of_nat 12)
  else if (n =? 110)%nat then Some (ascii_of_nat 10)
  else if (n =? 114)%nat then Some (ascii_of_nat 13)
  else if (n =? 116)%nat then Some (ascii_of_nat 9)
  else None.

Definition consChar (c : ascii) (r : option (string * string)) :
  option (string * string) :=
  match r with
  | Some (s, rest) => Some (String c s, rest)
  | None => None
  end.

(** The characters of a string literal after its opening quote, up to and
    including the closing quote.  Escapes denoting a code unit of 256 or
    more have no counterpart in [string] and are refused. *)
Fixpoint parseChars (s : string) : option (string * string) :=
  match s with
  | EmptyString => None
  | String c rest =>
      if (c =? dquote)%char then Some (EmptyString, rest)
      else if (c =? backslash)%char then
        match rest with
        | EmptyString => None
        | String e rest' =>
            if (e =? "u")%char then
              match rest' with
              | String h1 (String h2 (String h3 (String h4 r))) =>
                  match hexValue h1, hexValue h2, hexValue h3, hexValue h4 with
                  | Some a, Some b, Some c', Some d =>
                      let n := ((a * 16 + b) * 16 + c') * 16 + d in
                      if (n <? 256)%nat
                      then consChar (ascii_of_nat n) (parseChars r)
                      else None
                  | _, _, _, _ => None
                  end
              | _ => None
              end
            else
              match unescape e with
              | Some ch => consChar ch (parseChars rest')
              | None => None
              end
        end
      else if (nat_of_ascii c <? 32)%nat then None
      else consChar c (parseChars rest)
  end.

(** A value at the head of [s], and what follows it.  [fuel] bounds the
    number of nested calls. *)
Fixpoint parseValue (fuel : nat) (s : string) : option (value * string) :=
  match fuel with
  | 0 => None
  | S fuel' =>
      match s with
      | EmptyString => None
      | String c rest =>
          if (c =? dquote)%char then
            match parseChars rest with
            | Some (str, r) => Some (JStr str, r)
            | None => None
            end
          else if (c =? "[")%char then
            match rest with
            | String c' r =>
                if (c' =? "]")%char then Some (JArr [], r)
                else
                  match parseElements fuel' rest with
                  | Some (l, r') => Some (JArr l, r')
                  | None => None
                  end
            | EmptyString => None
            end
          else None
      end
  end
with parseElements (fuel : nat) (s : string) : option (list value * string) :=
  match fuel with
  | 0 => None
  | S fuel' =>
      match parseValue fuel' s with
      | Some (v, String c r) =>
          if (c =? ",")%char then
            match parseElements fuel' r with
            | Some (l, r') => Some (v :: l, r')
            | None => None
            end
          else if (c =? "]")%char then Some ([v], r)
          else None
      | _ => None
      end
  end.

(** [JSON.parse(s)] on texts of the fragment: the whole text is one value. *)
Definition parse (s : string) : option value :=
  match parseValue (S (String.length s)) s with
  | Some (v, EmptyString) => Some v
  | _ => None
  end.

(** Fuel that suffices for [parseValue] to read back the text of a value,
    and for [parseElements] to read back the elements of an array. *)
Fixpoint fuelFor (v : value) : nat :=
  match v with
  | JStr _ => 1
  | JArr l => S (fold_right (fun v n => S (fuelFor v + n)) 0 l)
  end.

Definition fuelForElements (l : list value) : nat :=
  fold_right (fun v n => S (fuelFor v + n)) 0 l.

End JSON.

(** ** The chunked state fetcher ([fetchChunks] and its caller in [main]) *)

Module Fetch.

(** The module-level variables the walk updates, the text written to the
    storage file so far, and the prefixes handed to [provider.send], in call
    order. *)
Record state : Type := mkState {
  separator : bool;
  chunksFetched : nat;
  stream : string;
  requests : list string
}.

Definition initial : state :=
  {| separator := false; chunksFetched := 0; stream := ""; requests := [] |}.

(** [stream.write(s)] *)
Definition write (s : string) (st : state) : state :=
  {| separator := separator st; chunksFetched := chunksFetched st;
     stream := stream st +:+ s; requests := requests st |}.

Definition setSeparator (b : bool) (st : state) : state :=
  {| separator := b; chunksFetched := chunksFetched st;
     stream := stream st; requests := requests st |}.

Definition countChunk (st : state) : state :=
  {| separator := separator st; chunksFetched := S (chunksFetched st);
     stream := stream st; requests := requests st |}.

(** The call [provider.send('state_getPairs', [prefix, block])] is issued. *)
Definition request (prefix : string) (st : state) : state :=
  {| separator := separator st; chunksFetched := chunksFetched st;
     stream := stream st; requests := requests st ++ [prefix] |}.

(** The array of two-element arrays the node answers with. *)
Definition pairValue (p : string * string) : JSON.value :=
  JSON.JArr [JSON.JStr (fst p); JSON.JStr (snd p)].

Definition pairsValue (pairs : list (string * string)) : JSON.value :=
  JSON.JArr (map pairValue pairs).

(** [prefix + i.toString(16).padStart(2, "0")] *)
Definition child (prefix : string) (i : nat) : string :=
  prefix +:+ JS.padStart 2 "0" (JS.toString16 i).

Section Walk.

(** The answer of the node to a range query at the chosen block. *)
Variable rpc : string -> list (string * string).

(** Whether [process.env.QUICK_MODE] is set. *)
Variable QUICK_MODE : bool.

(** In quick mode, the order in which the answers to the 256 requests below
    a prefix arrive. *)
Variable arrival : string -> list nat.

(** The rest of the leaf case, run when the answer [pairs] has arrived. *)
Definition resume (pairs : list (string * string)) (st : state) : state :=
  let st1 :=
    if (0 <? length pairs)%nat then
      let st' := if separator st then write "," st else setSeparator true st in
      write (JS.slice 1 (-1) (JSON.stringify (pairsValue pairs))) st'
    else st in
  countChunk st1.

(** [fetchChunks(prefix, block, levelsRemaining, stream)].  In quick mode with
    one level remaining, each of the 256 calls runs up to its [await], so the
    requests leave in loop order, and each call is resumed when its answer
    arrives; a resumed call runs to its end without yielding. *)
Fixpoint fetchChunks (prefix : string) (levelsRemaining : nat) (st : state)
  : state :=
  match levelsRemaining with
  | 0 => resume (rpc prefix) (request prefix st)
  | S n =>
      if QUICK_MODE && (levelsRemaining =? 1)%nat then
        let st' :=
          fold_left (fun s i => request (child prefix i) s) (seq 0 256) st in
        fold_left (fun s i => resume (rpc (child prefix i)) s)
                  (arrival prefix) st'
      else
        fold_left (fun s i => fetchChunks (child prefix i) n s) (seq 0 256) st
  end.

(** The text of [pairs] between the brackets of the array. *)
Definition fragment (pairs : list (string * string)) : string :=
  JS.join "," (map JSON.stringify (map pairValue pairs)).

(** The file holds the opening bracket and the pairs [acc], and [separator]
    tells whether a pair has been written. *)
Definition Streamed (st : state) (acc : list (string * string)) : Prop :=
  stream st = "[" +:+ fragment acc
  /\ separator st = match acc with [] => false | _ :: _ => true end.

(** From [st] to [st'] the chunks [leaves] have been requested, counted, and
    their pairs written, chunk after chunk, in some order of the chunks: the
    order of [leaves] itself outside quick mode. *)
Definition Walked (st st' : state) (leaves : list string) : Prop :=
  chunksFetched st' = chunksFetched st + length leaves
  /\ forall acc,
       Streamed st acc ->
       exists order,
         Permutation order leaves
         /\ (QUICK_MODE = false -> order = leaves)
         /\ Streamed st' (acc ++ flat_map rpc order).

(** The fetch in [main]: open the array, walk, close the array. *)
Definition fetchStorage (chunksLevel : nat) : state :=
  write "]" (fetchChunks "0x" chunksLevel (write "[" initial)).

End Walk.

(** [Math.pow(256, chunksLevel)] *)
Definition totalChunks (chunksLevel : nat) : nat := 256 ^ chunksLevel.

End Fetch.

(** ** The key space and its chunks *)

Module Keyspace.

(** The two lowercase hexadecimal digits of a byte, as [fetchChunks] appends
    them to a prefix and as the node prints keys. *)
Definition byteHex (b : Byte.byte) : string :=
  JS.padStart 2 "0" (JS.toString16 (Byte.to_nat b)).

Fixpoint hexBytes (bs : list Byte.byte) : string :=
  match bs with
  | [] => ""
  | b :: bs' => byteHex b +:+ hexBytes bs'
  end.

(** The storage key with the bytes [bs]. *)
Definition keyOfBytes (bs : list Byte.byte) : string := "0x" +:+ hexBytes bs.

(** The byte two hexadecimal digits stand for. *)
Definition decodeByte (s : string) : option Byte.byte :=
  match s with
  | String a (String b EmptyString) =>
      match JSON.hexValue a, JSON.hexValue b with
      | Some x, Some y => Byte.of_nat (x * 16 + y)
      | _, _ => None
      end
  | _ => None
  end.

(** The chunk addresses below [prefix], [levels] bytes deeper, in the order
    of the walk. *)
Fixpoint chunkAddresses (prefix : string) (levels : nat) : list string :=
  match levels with
  | 0 => [prefix]
  | S n => flat_map (fun i => chunkAddresses (Fetch.child prefix i) n) (seq 0 256)
  end.

End Keyspace.

(** ** The prefix list and the splice ([main], after the fetch) *)

Module Metadata.

(** The storage section of a module of the metadata, and the module.  The
    script reads [module.storage] and [module.storage.prefix]; it does not
    read [module.name]. *)
Record StorageMetadata : Type := { prefix : string }.

Record ModuleMetadata : Type := {
  name : string;
  storage : option StorageMetadata
}.

(** A module whose storage prefix is its name. *)
Definition plainModule (n : string) : ModuleMetadata :=
  {| name := n; storage := Some {| prefix := n |} |}.

End Metadata.

Module Main.

(** System.Account *)
Definition SystemAccount : string :=
  "0x26aa394eea5630e07c48ae0c9558cef7b99d880ec681799c0cf30e8886371da9".

(** The initial value of [prefixes]. *)
Definition pinnedPrefixes : list string := [SystemAccount].

Definition skippedModulesPrefix : list string :=
  ["System"; "Session"; "Babe"; "Grandpa"; "GrandpaFinality";
   "FinalityTracker"; "Authorship"].

(** [a.includes(x)] on an array of strings. *)
Definition includes (a : list string) (x : string) : bool :=
  existsb (String.eqb x) a.

(** System.LastRuntimeUpgrade *)
Definition LastRuntimeUpgrade : string :=
  "0x26aa394eea5630e07c48ae0c9558cef7f9cce9c888469bb1a0dceaa129672ef8".

(** The well-known key [:code]. *)
Definition codeKey : string := "0x3a636f6465".

(** Staking.ForceEra *)
Definition ForceEra : string :=
  "0x5f3e4907f716ac89b6347d15ececedcaf7dad0317324aecae8744b87fc95f2f3".

Definition HostConfiguration : string :=
  "0x45323df7cc47150b3930e2666b0aa313c522231880238a0c56021b8744a00743".

Definition HostConfigurationValue : string :=
  "0x0000a000005000000a00000000c8000000c800000a0000000a0000000100000001000000".

Definition CouncilMembers : string :=
  "0x11f3ba2e1cdd6d62f2ff9b5589e7ff81ba7fb8745735dc3be2a2c61a72c39e78".

Definition TechnicalCommitteeMembers : string :=
  "0x8985776095addd4789fccbce8ca77b23ba7fb8745735dc3be2a2c61a72c39e78".

(** Alice only. *)
Definition AliceOnly : string := "0x04f24ff3a9cf04c71dbc94d0b566f7a27b94566cac".

Definition Eligibility : string :=
  "0x76310ee24dbd609d21d08ad7292757d0e48df801946c7a0cc54f1a4e51592741".

(** The deletion and the assignments that follow the transplant, as a
    table: [None] stands for [delete], [Some v] for an assignment of [v].
    [runtimeHex] is the content of the file [runtime.hex]. *)
Definition overrideTable (runtimeHex : string) : list (string * option string) :=
  [ (LastRuntimeUpgrade, None);
    (codeKey, Some ("0x" +:+ JS.trim runtimeHex));
    (ForceEra, Some "0x02");
    (HostConfiguration, Some HostConfigurationValue);
    (CouncilMembers, Some AliceOnly);
    (TechnicalCommitteeMembers, Some AliceOnly);
    (Eligibility, Some "0x64") ].

(** [top[key] = value] for a pair [[key, value]]. *)
Definition assignPair (t : gmap string string) (i : string * string)
  : gmap string string :=
  <[fst i := snd i]> t.

(** One row of the table applied to a storage map. *)
Definition applyOverride (t : gmap string string) (e : string * option string)
  : gmap string string :=
  match snd e with
  | None => delete (fst e) t
  | Some v => <[fst e := v]> t
  end.

Section Splice.

(** The JSON values of the parts of a chain specification that the script
    neither reads nor writes. *)
Context {JSValue : Type}.

(** [xxhashAsHex(data, bitLength)] of @polkadot/util-crypto. *)
Variable xxhashAsHex : string -> nat -> string.

(** A chain specification: the three identity fields, the storage map
    [genesis.raw.top], and every other field of the document. *)
Record GenesisSpec : Type := {
  name : string;
  id : string;
  protocolId : JSValue;
  top : gmap string string;
  otherFields : JSValue
}.

(** The variables of [main] during the splice. *)
Record state : Type := {
  prefixes : list string;
  storage : list (string * string);
  originalSpec : GenesisSpec;
  forkedSpec : GenesisSpec
}.

Definition setForked (f : GenesisSpec) (st : state) : state :=
  {| prefixes := prefixes st; storage := storage st;
     originalSpec := originalSpec st; forkedSpec := f |}.

Definition setPrefixes (p : list string) (st : state) : state :=
  {| prefixes := p; storage := storage st;
     originalSpec := originalSpec st; forkedSpec := forkedSpec st |}.

Definition setName (s : string) (f : GenesisSpec) : GenesisSpec :=
  {| name := s; id := id f; protocolId := protocolId f; top := top f;
     otherFields := otherFields f |}.

Definition setId (s : string) (f : GenesisSpec) : GenesisSpec :=
  {| name := name f; id := s; protocolId := protocolId f; top := top f;
     otherFields := otherFields f |}.

Definition setProtocolId (v : JSValue) (f : GenesisSpec) : GenesisSpec :=
  {| name := name f; id := id f; protocolId := v; top := top f;
     otherFields := otherFields f |}.

Definition setTop (t : gmap string string) (f : GenesisSpec) : GenesisSpec :=
  {| name := name f; id := id f; protocolId := protocolId f; top := t;
     otherFields := otherFields f |}.

(** [forkedSpec.genesis.raw.top[key] = value] *)
Definition assignTop (key value : string) (st : state) : state :=
  setForked (setTop (<[key := value]> (top (forkedSpec st))) (forkedSpec st)) st.

(** [delete forkedSpec.genesis.raw.top[key]] *)
Definition deleteTop (key : string) (st : state) : state :=
  setForked (setTop (delete key (top (forkedSpec st))) (forkedSpec st)) st.

(** The callback of [modules.forEach]. *)
Definition addModulePrefix (st : state) (module : Metadata.ModuleMetadata)
  : state :=
  match Metadata.storage module with
  | Some s =>
      if negb (includes skippedModulesPrefix (Metadata.prefix s))
      then setPrefixes (prefixes st ++ [xxhashAsHex (Metadata.prefix s) 128]) st
      else st
  | None => st
  end.

(** Populate the prefixes array. *)
Definition populatePrefixes (modules : list Metadata.ModuleMetadata)
    (st : state) : state :=
  fold_left addModulePrefix modules st.

(** The filter of the transplant:
    [prefixes.some((prefix) => i[0].startsWith(prefix))]. *)
Definition selected (prefixes : list string) (i : string * string) : bool :=
  existsb (fun prefix => JS.startsWith (fst i) prefix) prefixes.

(** Grab the items to be moved, then iterate through and insert into
    storage. *)
Definition transplant (st : state) : state :=
  fold_left (fun s i => assignTop (fst i) (snd i) s)
            (List.filter (selected (prefixes st)) (storage st)) st.

(** Modify chain name and id. *)
Definition renameFork (st : state) : state :=
  let st := setForked (setName (name (originalSpec st) +:+ "-fork") (forkedSpec st)) st in
  let st := setForked (setId (id (originalSpec st) +:+ "-fork") (forkedSpec st)) st in
  setForked (setProtocolId (protocolId (originalSpec st)) (forkedSpec st)) st.

(** The fixed assignments after the runtime code. *)
Definition fixedOverrides (st : state) : state :=
  let st := assignTop ForceEra "0x02" st in
  let st := assignTop HostConfiguration HostConfigurationValue st in
  let st := assignTop CouncilMembers AliceOnly st in
  let st := assignTop TechnicalCommitteeMembers AliceOnly st in
  assignTop Eligibility "0x64" st.

(** [main] from the rename to the last assignment. *)
Definition splice (runtimeHex : string) (st : state) : state :=
  let st := renameFork st in
  let st := transplant st in
  let st := deleteTop LastRuntimeUpgrade st in
  let st := assignTop codeKey ("0x" +:+ JS.trim runtimeHex) st in
  fixedOverrides st.

(** What one module of the metadata adds to the prefix list. *)
Definition contribution (module : Metadata.ModuleMetadata) : list string :=
  match Metadata.storage module with
  | Some s =>
      if includes skippedModulesPrefix (Metadata.prefix s) then []
      else [xxhashAsHex (Metadata.prefix s) 128]
  | None => []
  end.

(** The prefix list after the metadata has been read. *)
Definition prefixList (modules : list Metadata.ModuleMetadata) : list string :=
  fold_left
    (fun ps module =>
       match Metadata.storage module with
       | Some s =>
           if negb (includes skippedModulesPrefix (Metadata.prefix s))
           then (ps ++ [xxhashAsHex (Metadata.prefix s) 128])%list
           else ps
       | None => ps
       end)
    modules pinnedPrefixes.

(** [main] from the metadata on: [modules] is the parsed metadata,
    [storage], [original] and [forked] are the three parsed documents. *)
Definition main (modules : list Metadata.ModuleMetadata)
    (storage : list (string * string)) (original forked : GenesisSpec)
    (runtimeHex : string) : state :=
  splice runtimeHex
    (populatePrefixes modules
       {| prefixes := pinnedPrefixes; storage := storage;
          originalSpec := original; forkedSpec := forked |}).

End Splice.

End Main.

(** ** Sample inputs *)

(** A node with two pairs under [0xaa] and one under [0xbb]. *)
Definition sampleRpc (prefix : string) : list (string * string) :=
  if (prefix =? "0xaa")%string then [("0xaa11", "0x01"); ("0xaa22", "0x03")]
  else if (prefix =? "0xbb")%string then [("0xbb22", "0x02")]
  else [].

(** A stand-in for [xxhashAsHex]: the 128-bit hashes of three module names,
    as they begin the storage keys of these modules, and a tagged copy of
    the name for any other. *)
Definition sampleHash (data : string) (bitLength : nat) : string :=
  if (data =? "System")%string then "0x26aa394eea5630e07c48ae0c9558cef7"
  else if (data =? "Balances")%string then "0xc2261276cc9d1f8598ea4b6a74b15c2f"
  else if (data =? "Staking")%string then "0x5f3e4907f716ac89b6347d15ececedca"
  else "0x" +:+ data.

Definition sampleModules : list Metadata.ModuleMetadata :=
  [ Metadata.plainModule "System";
    {| Metadata.name := "Utility"; Metadata.storage := None |};
    Metadata.plainModule "Balances";
    Metadata.plainModule "Staking" ].

(** Two modules whose storage prefix is not their name: the first has a
    name of the skip list and a prefix outside it, the second a name
    outside the skip list and a prefix of it. *)
Definition renamedModules : list Metadata.ModuleMetadata :=
  [ {| Metadata.name := "Authorship";
       Metadata.storage := Some {| Metadata.prefix := "Uncles" |} |};
    {| Metadata.name := "Finality";
       Metadata.storage := Some {| Metadata.prefix := "GrandpaFinality" |} |} ].

Definition sampleOriginal : @Main.GenesisSpec string :=
  {| Main.name := "kusama"; Main.id := "ks"; Main.protocolId := "ksmcc3";
     Main.top := ∅; Main.otherFields := "live" |}.

(** A template that holds an entry under an unselected key, a stale runtime
    and no System.LastRuntimeUpgrade. *)
Definition sampleForked : @Main.GenesisSpec string :=
  {| Main.name := "Development"; Main.id := "dev"; Main.protocolId := "dev";
     Main.top := <["0xbb22" := "0x02"]> (<[Main.codeKey := "0x00"]> ∅);
     Main.otherFields := "local" |}.

(** A snapshot with an account, a pair under Staking that the table also
    names, a pair under no prefix of the list, and the live runtime. *)
Definition sampleStorage : list (string * string) :=
  [ (Main.SystemAccount +:+ "aa", "0x01");
    (Main.ForceEra, "0x00");
    ("0xbb22", "0x02");
    (Main.codeKey, "0xdead") ].

Definition sampleState : @Main.state string :=
  {| Main.prefixes := Main.prefixList sampleHash sampleModules;
     Main.storage := sampleStorage;
     Main.originalSpec := sampleOriginal;
     Main.forkedSpec := sampleForked |}.

(** The bytes of the well-known key [:code]. *)
Definition codeBytes : list Byte.byte :=
  [Byte.x3a; Byte.x63; Byte.x6f; Byte.x64; Byte.x65].

(** ** The order in which the answers are processed *)

Module Completion.

Section Order.

Variable QUICK_MODE : bool.
Variable arrival : string -> list nat.

(** The leaf prefixes in the order in which [fetchChunks] processes their
    answers: the order of the walk, except that below a prefix with one
    level remaining in quick mode it is the order of arrival. *)
Fixpoint completionOrder (prefix : string) (levelsRemaining : nat)
  : list string :=
  match levelsRemaining with
  | 0 => [prefix]
  | S n =>
      if QUICK_MODE && (levelsRemaining =? 1)%nat then
        map (Fetch.child prefix) (arrival prefix)
      else
        flat_map (fun i => completionOrder (Fetch.child prefix i) n) (seq 0 256)
  end.

End Order.

End Completion.

(** ** What a walk leaves in place *)

Module Appending.

(** From [st] to [st'] the file has only grown at its end, and the separator
    flag, once set, is still set. *)
Definition Extends (st st' : Fetch.state) : Prop :=
  (exists text, Fetch.stream st' = Fetch.stream st +:+ text)
  /\ (Fetch.separator st = true -> Fetch.separator st' = true).

End Appending.

(** ** The runtime blob *)

Module Runtime.

(** The text that [cat runtime.wasm | hexdump -ve '/1 "%02x"'] writes to
    [runtime.hex]: two lowercase hexadecimal digits for each byte of the
    blob, and nothing else. *)
Definition hexdump (wasm : list Byte.byte) : string := Keyspace.hexBytes wasm.

(** No character of [s] is white space for [trim]. *)
Fixpoint noWhiteSpace (s : string) : bool :=
  match s with
  | EmptyString => true
  | String c s' => negb (JS.isWhiteSpace c) && noWhiteSpace s'
  end.

(** The bytes a text of hexadecimal digit pairs stands for. *)
Fixpoint decodeHex (s : string) : option (list Byte.byte) :=
  match s with
  | EmptyString => Some []
  | String a (String b rest) =>
      match Keyspace.decodeByte (String a (String b EmptyString)),
            decodeHex rest with
      | Some x, Some l => Some (x :: l)
      | _, _ => None
      end
  | String _ EmptyString => None
  end.

(** The bytes of a key or value written as "0x" and hexadecimal digits. *)
Definition decode0x (s : string) : option (list Byte.byte) :=
  match s with
  | String a (String b rest) =>
      if ((a =? "0") && (b =? "x"))%char then decodeHex rest else None
  | _ => None
  end.

End Runtime.

(** ** The storage map the splice is expected to produce *)

Module Precedence.

(** The value of the last pair of [l] with key [k]. *)
Definition lastValue (k : string) (l : list (string * string)) : option string :=
  fold_left (fun acc i => if (fst i =? k)%string then Some (snd i) else acc)
            l None.

(** The row of the table for [k], if it has one. *)
Definition tableRow (runtimeHex : string) (k : string)
  : option (option string) :=
  option_map snd
    (find (fun e => (fst e =? k)%string) (Main.overrideTable runtimeHex)).

(** The entry of [k]: what the table says, or else the last selected pair of
    the snapshot, or else the entry of the template. *)
Definition expectedEntry {JSValue : Type} (runtimeHex : string)
    (st : @Main.state JSValue) (k : string) : option string :=
  match tableRow runtimeHex k with
  | Some row => row
  | None =>
      match lastValue k (List.filter (Main.selected (Main.prefixes st))
                                     (Main.storage st)) with
      | Some v => Some v
      | None => Main.top (Main.forkedSpec st) !! k
      end
  end.

End Precedence.

(** ** The model on small inputs *)

Module Samples.

Example toString16_255 : JS.toString16 255 = "ff".
Proof. reflexivity. Qed.

Example padStart_10 : JS.padStart 2 "0" (JS.toString16 10) = "0a".
Proof. reflexivity. Qed.

Example slice_inner : JS.slice 1 (-1) "[abc]" = "abc".
Proof. reflexivity. Qed.

Example trim_both : JS.trim "  0a1b
" = "0a1b".
Proof. reflexivity. Qed.

Example stringify_pair :
  JSON.stringify (JSON.JArr [JSON.JArr [JSON.JStr "0xaa11"; JSON.JStr "0x01"]])
  = String "[" (String "[" (String JSON.dquote ("0xaa11" +:+
      String JSON.dquote (String "," (String JSON.dquote ("0x01" +:+
      String JSON.dquote "]]")))))).
Proof. reflexivity. Qed.

Example parse_stringify_sample :
  let v := JSON.JArr [JSON.JArr [JSON.JStr "0xaa11"; JSON.JStr "0x01"];
                      JSON.JArr []; JSON.JStr (String (ascii_of_nat 7) "a\b")] in
  JSON.parse (JSON.stringify v) = Some v.
Proof. vm_compute. reflexivity. Qed.

Example fetch_sample_sequential :
  JSON.parse (Fetch.stream (Fetch.fetchStorage sampleRpc false (fun _ => []) 1))
  = Some (Fetch.pairsValue [("0xaa11", "0x01"); ("0xaa22", "0x03"); ("0xbb22", "0x02")]).
Proof. vm_compute. reflexivity. Qed.

Example fetch_sample_quick :
  JSON.parse (Fetch.stream
    (Fetch.fetchStorage sampleRpc true (fun _ => rev (seq 0 256)) 1))
  = Some (Fetch.pairsValue [("0xbb22", "0x02"); ("0xaa11", "0x01"); ("0xaa22", "0x03")]).
Proof. vm_compute. reflexivity. Qed.

Example fetch_sample_level0 :
  Fetch.stream (Fetch.fetchStorage (fun _ => []) true (fun _ => []) 0) = "[]".
Proof. vm_compute. reflexivity. Qed.

End Samples.

(** ** Facts about strings *)

Module StringFacts.

Lemma append_cons c s t : String c s +:+ t = String c (s +:+ t).
Proof. reflexivity. Qed.

Lemma append_nil_l s : "" +:+ s = s.
Proof. reflexivity. Qed.

Lemma append_nil_r s : s +:+ "" = s.
Proof.
  induction s as [|c s IH]; [reflexivity|]. by rewrite append_cons, IH.
Qed.

Lemma append_assoc a b c : (a +:+ b) +:+ c = a +:+ (b +:+ c).
Proof.
  induction a as [|x a IH]; [reflexivity|]. by rewrite !append_cons, IH.
Qed.

Lemma length_append a b :
  String.length (a +:+ b) = String.length a + String.length b.
Proof.
  induction a as [|x a IH]; [reflexivity|]. rewrite append_cons. cbn.
  by rewrite IH.
Qed.

(** Push every append to the right and through leading characters. *)
Ltac flatten_append :=
  repeat first
    [ rewrite append_assoc | rewrite append_cons | rewrite append_nil_l ].

Lemma prefix_nil s : String.prefix "" s = true.
Proof. by destruct s. Qed.

Lemma prefix_cons c p d s :
  String.prefix (String c p) (String d s)
  = if Ascii.ascii_dec c d then String.prefix p s else false.
Proof. reflexivity. Qed.

Lemma prefix_append a b c : String.prefix (a +:+ b) (a +:+ c) = String.prefix b c.
Proof.
  induction a as [|x a IH]; [reflexivity|].
  rewrite !append_cons, prefix_cons. by destruct (Ascii.ascii_dec x x).
Qed.

Lemma prefix_append_r p s : String.prefix p (p +:+ s) = true.
Proof.
  rewrite <- (append_nil_r p) at 1. rewrite prefix_append. apply prefix_nil.
Qed.

Lemma prefix_refl s : String.prefix s s = true.
Proof. rewrite <- (append_nil_r s) at 2. apply prefix_append_r. Qed.

Lemma prefix_length p s :
  String.prefix p s = true -> String.length p <= String.length s.
Proof.
  revert s. induction p as [|c p IH]; intros s H; cbn; [lia|].
  destruct s as [|d s]; [discriminate H|].
  rewrite prefix_cons in H. destruct (Ascii.ascii_dec c d); [|discriminate H].
  apply IH in H. cbn. lia.
Qed.

(** Two heads of the same length: the longer text starts with the shorter
    one only if the heads agree. *)
Lemma prefix_heads a a' b c :
  String.length a = String.length a' ->
  String.prefix (a +:+ b) (a' +:+ c) = true ->
  a = a' /\ String.prefix b c = true.
Proof.
  revert a'. induction a as [|x a IH]; intros [|y a'] Hlen H;
    try discriminate Hlen.
  - by split.
  - rewrite !append_cons, prefix_cons in H.
    destruct (Ascii.ascii_dec x y) as [->|]; [|discriminate H].
    injection Hlen as Hlen. destruct (IH a' Hlen H) as [-> Hbc]. by split.
Qed.

Lemma substring_0_append a b : substring 0 (String.length a) (a +:+ b) = a.
Proof.
  induction a as [|x a IH]; [by destruct b|].
  rewrite append_cons. cbn. by rewrite IH.
Qed.

End StringFacts.

(** ** Facts about the chunk addresses *)

Module KeyspaceFacts.

Import Keyspace StringFacts.

Lemma decode_byteHex b : decodeByte (byteHex b) = Some b.
Proof. destruct b; vm_compute; reflexivity. Qed.

Lemma byteHex_inj a b : byteHex a = byteHex b -> a = b.
Proof.
  intros H. apply (f_equal decodeByte) in H.
  rewrite !decode_byteHex in H. by injection H.
Qed.

Lemma byteHex_length b : String.length (byteHex b) = 2.
Proof. destruct b; vm_compute; reflexivity. Qed.

Lemma child_byte prefix b :
  Fetch.child prefix (Byte.to_nat b) = prefix +:+ byteHex b.
Proof. reflexivity. Qed.

Lemma index_byte i : In i (seq 0 256) -> exists b, Byte.to_nat b = i.
Proof.
  intros Hi. apply in_seq in Hi.
  destruct (Byte.of_nat i) as [b|] eqn:Hb.
  - exists b. by apply Byte.to_of_nat.
  - apply Byte.of_nat_None_iff in Hb. lia.
Qed.

Lemma byte_index b : In (Byte.to_nat b) (seq 0 256).
Proof. apply in_seq. pose proof (Byte.to_nat_bounded b). lia. Qed.

Lemma hexBytes_app bs bs' : hexBytes (bs ++ bs') = hexBytes bs +:+ hexBytes bs'.
Proof.
  induction bs as [|b bs IH]; [reflexivity|].
  cbn [hexBytes app]. by rewrite IH, append_assoc.
Qed.

Lemma hexBytes_length bs : String.length (hexBytes bs) = 2 * length bs.
Proof.
  induction bs as [|b bs IH]; [reflexivity|].
  cbn [hexBytes length]. rewrite length_append, byteHex_length, IH. lia.
Qed.

Lemma hexBytes_firstn n bs :
  String.prefix (hexBytes (firstn n bs)) (hexBytes bs) = true.
Proof.
  rewrite <- (firstn_skipn n bs) at 2. rewrite hexBytes_app.
  apply prefix_append_r.
Qed.

Lemma hexBytes_prefix bs' bs :
  String.prefix (hexBytes bs') (hexBytes bs) = true ->
  bs' = firstn (length bs') bs.
Proof.
  revert bs. induction bs' as [|b' bs' IH]; intros bs H; [reflexivity|].
  destruct bs as [|b bs].
  - apply prefix_length in H. rewrite !hexBytes_length in H. cbn in H. lia.
  - cbn [hexBytes] in H. apply prefix_heads in H as [Hb H].
    + apply byteHex_inj in Hb as ->. cbn [length firstn]. f_equal. by apply IH.
    + by rewrite !byteHex_length.
Qed.

Lemma In_chunkAddresses prefix n p :
  In p (chunkAddresses prefix n)
  <-> exists bs, length bs = n /\ p = prefix +:+ hexBytes bs.
Proof.
  revert prefix p. induction n as [|n IH]; intros prefix p; cbn [chunkAddresses].
  - split.
    + intros [<-|[]]. exists []. by rewrite append_nil_r.
    + intros (bs & Hlen & ->). destruct bs; [|discriminate Hlen].
      left. by rewrite append_nil_r.
  - rewrite in_flat_map. split.
    + intros (i & Hi & Hp). apply index_byte in Hi as [b <-].
      apply IH in Hp as (bs & Hlen & ->). exists (b :: bs). split.
      * cbn. by rewrite Hlen.
      * cbn [hexBytes]. by rewrite child_byte, append_assoc.
    + intros (bs & Hlen & ->). destruct bs as [|b bs]; [discriminate Hlen|].
      exists (Byte.to_nat b). split; [apply byte_index|].
      apply IH. exists bs. split; [by injection Hlen|].
      cbn [hexBytes]. by rewrite child_byte, append_assoc.
Qed.

Lemma flat_map_length_const {A B} (f : A -> list B) (l : list A) c :
  (forall x, length (f x) = c) -> length (flat_map f l) = length l * c.
Proof.
  intros Hf. induction l as [|x l IH]; [reflexivity|].
  cbn [flat_map length]. rewrite length_app, Hf, IH. lia.
Qed.

Lemma chunkAddresses_length prefix n :
  length (chunkAddresses prefix n) = 256 ^ n.
Proof.
  revert prefix. induction n as [|n IH]; intros prefix; [reflexivity|].
  cbn [chunkAddresses].
  rewrite (flat_map_length_const _ _ (256 ^ n)) by (intros i; apply IH).
  rewrite length_seq. by rewrite Nat.pow_succ_r'.
Qed.

Lemma NoDup_flat_map {A B} (f : A -> list B) (l : list A) :
  NoDup l ->
  (forall x, In x l -> NoDup (f x)) ->
  (forall x y p, In x l -> In y l -> In p (f x) -> In p (f y) -> x = y) ->
  NoDup (flat_map f l).
Proof.
  induction l as [|x l IH]; intros Hl Hf Hdisj; [apply NoDup_nil_2|].
  apply NoDup_cons in Hl as [Hx Hl]. cbn [flat_map].
  apply NoDup_app. split; [apply Hf; by left|]. split.
  - intros p Hp Hp'. apply list_elem_of_In in Hp, Hp'.
    apply in_flat_map in Hp' as (y & Hy & Hp').
    assert (x = y) as -> by (apply (Hdisj x y p); auto using in_eq, in_cons).
    apply Hx. by apply list_elem_of_In.
  - apply IH; [exact Hl| |].
    + intros y Hy. apply Hf. by right.
    + intros y z p Hy Hz. apply Hdisj; by right.
Qed.

Lemma chunkAddresses_NoDup prefix n : NoDup (chunkAddresses prefix n).
Proof.
  revert prefix. induction n as [|n IH]; intros prefix; cbn [chunkAddresses].
  - apply NoDup_cons_2; [apply not_elem_of_nil|apply NoDup_nil_2].
  - apply NoDup_flat_map.
    + apply NoDup_ListNoDup, seq_NoDup.
    + intros i _. apply IH.
    + intros i j p Hi Hj Hpi Hpj.
      apply index_byte in Hi as [a <-]. apply index_byte in Hj as [b <-].
      apply In_chunkAddresses in Hpi as (bs & _ & ->).
      apply In_chunkAddresses in Hpj as (bs' & _ & Heq).
      rewrite !child_byte, !append_assoc in Heq.
      apply (inj (String.append prefix)) in Heq.
      assert (String.prefix (byteHex a +:+ hexBytes bs)
                            (byteHex b +:+ hexBytes bs') = true) as Hpre
          by (rewrite Heq; apply prefix_refl).
      apply prefix_heads in Hpre as [Hab _]; [|by rewrite !byteHex_length].
      by apply byteHex_inj in Hab as ->.
Qed.

(** A key of at least [n] bytes lies under exactly one chunk address of
    depth [n]: the one made of its first [n] bytes. *)
Lemma chunk_of_key n bs p :
  n <= length bs ->
  In p (chunkAddresses "0x" n) ->
  JS.startsWith (keyOfBytes bs) p = true <-> p = keyOfBytes (firstn n bs).
Proof.
  intros Hn Hp. apply In_chunkAddresses in Hp as (bs' & Hlen & ->).
  unfold JS.startsWith, keyOfBytes. rewrite prefix_append. split.
  - intros H. apply hexBytes_prefix in H. by rewrite H, Hlen.
  - intros H. apply (inj (String.append "0x")) in H. rewrite H.
    apply hexBytes_firstn.
Qed.

(** A key of fewer than [n] bytes lies under no chunk address of depth [n]. *)
Lemma short_key_uncovered n bs p :
  length bs < n ->
  In p (chunkAddresses "0x" n) ->
  JS.startsWith (keyOfBytes bs) p = false.
Proof.
  intros Hn Hp. apply In_chunkAddresses in Hp as (bs' & Hlen & ->).
  unfold JS.startsWith, keyOfBytes. rewrite prefix_append.
  destruct (String.prefix _ _) eqn:H; [|reflexivity].
  apply prefix_length in H. rewrite !hexBytes_length in H. lia.
Qed.

End KeyspaceFacts.

(** ** Reading back what [JSON.stringify] wrote *)

Module JSONFacts.

Import JSON StringFacts.

Lemma value_induction (P : value -> Prop) :
  (forall s, P (JStr s)) ->
  (forall l, Forall P l -> P (JArr l)) ->
  forall v, P v.
Proof.
  intros Hstr Harr. fix IH 1. intros [s|l]; [apply Hstr|].
  apply Harr. induction l as [|v l IHl]; constructor; [apply IH|exact IHl].
Qed.

Lemma parseChars_quoteChar c rest :
  parseChars (quoteChar c +:+ rest) = consChar c (parseChars rest).
Proof.
  destruct c as [[] [] [] [] [] [] [] []]; reflexivity.
Qed.

Lemma parseChars_quoteChars s rest :
  parseChars (quoteChars s +:+ String dquote rest) = Some (s, rest).
Proof.
  induction s as [|c s IH]; [reflexivity|].
  cbn [quoteChars]. rewrite append_assoc, parseChars_quoteChar, IH.
  reflexivity.
Qed.

Lemma stringify_head v :
  exists c s, stringify v = String c s
              /\ (c =? "]")%char = false /\ (c =? dquote)%char = match v with JStr _ => true | JArr _ => false end.
Proof.
  destruct v as [s|l].
  - exists dquote, (quoteChars s +:+ String dquote ""). by repeat split.
  - exists "["%char, (JS.join "," (map stringify l) +:+ "]"). by repeat split.
Qed.

Lemma join_cons2 sep x y l :
  JS.join sep (x :: y :: l) = x +:+ sep +:+ JS.join sep (y :: l).
Proof. reflexivity. Qed.

Lemma parseValue_string fuel s rest :
  parseValue (S fuel) (quote s +:+ rest) = Some (JStr s, rest).
Proof.
  unfold quote. flatten_append.
  cbn [parseValue]. change (dquote =? dquote)%char with true. cbv iota.
  by rewrite parseChars_quoteChars.
Qed.

Lemma parseElements_stringify l :
  Forall (fun v => forall fuel rest,
            fuelFor v <= fuel ->
            parseValue fuel (stringify v +:+ rest) = Some (v, rest)) l ->
  l <> [] ->
  forall fuel rest,
    fuelForElements l <= fuel ->
    parseElements fuel (JS.join "," (map stringify l) +:+ String "]" rest)
    = Some (l, rest).
Proof.
  induction 1 as [|v l Hv Hl IH]; intros Hne fuel rest Hfuel; [done|].
  unfold fuelForElements in Hfuel. cbn [fold_right] in Hfuel.
  fold (fuelForElements l) in Hfuel.
  destruct fuel as [|fuel]; [lia|]. cbn [parseElements].
  destruct l as [|v' l].
  - cbn [map JS.join]. rewrite Hv by lia. reflexivity.
  - cbn [map]. rewrite join_cons2. flatten_append. rewrite Hv by lia.
    change ("," =? ",")%char with true. cbv iota.
    change (stringify v' :: map stringify l) with (map stringify (v' :: l)).
    rewrite IH; [reflexivity|done|lia].
Qed.

Lemma parseValue_stringify v :
  forall fuel rest,
    fuelFor v <= fuel ->
    parseValue fuel (stringify v +:+ rest) = Some (v, rest).
Proof.
  induction v as [s|l IH] using value_induction; intros fuel rest Hfuel.
  - destruct fuel as [|fuel]; [cbn in Hfuel; lia|]. apply parseValue_string.
  - cbn [fuelFor] in Hfuel. fold (fuelForElements l) in Hfuel.
    destruct fuel as [|fuel]; [lia|].
    cbn [stringify]. flatten_append. cbn [parseValue]. change ("[" =? dquote)%char with false.
    change ("[" =? "[")%char with true. cbv iota.
    destruct l as [|v l]; [reflexivity|].
    destruct (stringify_head v) as (c & s & Hhead & Hc & _).
    assert (JS.join "," (map stringify (v :: l)) +:+ String "]" rest
            = String c (s +:+ match l with
                              | [] => String "]" rest
                              | _ => "," +:+ JS.join "," (map stringify l)
                                     +:+ String "]" rest
                              end)) as Hshape.
    { cbn [map]. destruct l as [|v' l].
      - cbn [JS.join]. by rewrite Hhead, append_cons.
      - change (map stringify (v' :: l)) with (stringify v' :: map stringify l).
        rewrite join_cons2, Hhead, !append_assoc, append_cons.
        reflexivity. }
    rewrite Hshape, Hc, <- Hshape.
    rewrite parseElements_stringify; [reflexivity|exact IH|done|lia].
Qed.

Lemma need_le_length v : fuelFor v <= String.length (stringify v).
Proof.
  induction v as [s|l IH] using value_induction.
  - unfold stringify, quote. cbn [fuelFor String.length].
    rewrite length_append. cbn. lia.
  - cbn [fuelFor stringify]. fold (fuelForElements l).
    rewrite append_cons, append_nil_l. cbn [String.length].
    rewrite length_append. cbn [String.length].
    enough (fuelForElements l
            <= S (String.length (JS.join "," (map stringify l)))) by lia.
    induction IH as [|v l Hv Hl IHl]; [cbn; lia|].
    unfold fuelForElements. cbn [fold_right]. fold (fuelForElements l).
    destruct l as [|v' l].
    + cbn [map JS.join]. unfold fuelForElements. cbn [fold_right]. lia.
    + cbn [map]. rewrite join_cons2, !length_append. cbn [String.length].
      cbn [map] in IHl. lia.
Qed.

(** [JSON.parse] reads back any value of the fragment from the text
    [JSON.stringify] gives it. *)
Theorem parse_stringify v : parse (stringify v) = Some v.
Proof.
  unfold parse. rewrite <- (append_nil_r (stringify v)) at 2.
  rewrite parseValue_stringify; [reflexivity|].
  pose proof (need_le_length v). lia.
Qed.

End JSONFacts.

(** ** Facts about the fetch *)

Module FetchFacts.

Import Fetch Keyspace StringFacts.

Lemma slice_brackets body : JS.slice 1 (-1) (String "[" (body +:+ "]")) = body.
Proof.
  unfold JS.slice. cbn [String.length]. rewrite length_append.
  cbn [String.length].
  change (1 <? 0)%Z with false. change (-1 <? 0)%Z with true. cbv iota.
  replace (Z.to_nat (Z.min 1 _)) with 1 by lia.
  replace (Z.to_nat (Z.max _ 0)) with (String.length body) by lia.
  cbn [substring]. apply substring_0_append.
Qed.

Lemma slice_stringify pairs :
  JS.slice 1 (-1) (JSON.stringify (pairsValue pairs)) = fragment pairs.
Proof.
  unfold pairsValue. cbn [JSON.stringify]. rewrite append_cons, append_nil_l.
  apply slice_brackets.
Qed.

Lemma join_app sep (l1 l2 : list string) :
  l1 <> [] -> l2 <> [] ->
  JS.join sep (l1 ++ l2) = JS.join sep l1 +:+ sep +:+ JS.join sep l2.
Proof.
  intros H1 H2. induction l1 as [|x l1 IH]; [done|].
  destruct l1 as [|y l1].
  - destruct l2 as [|z l2]; [done|]. reflexivity.
  - change ((x :: y :: l1) ++ l2) with (x :: y :: (l1 ++ l2)).
    rewrite !JSONFacts.join_cons2.
    change (y :: l1 ++ l2) with ((y :: l1) ++ l2).
    rewrite IH by done. by rewrite !append_assoc.
Qed.

Lemma fragment_app acc pairs :
  acc <> [] -> pairs <> [] ->
  fragment (acc ++ pairs) = fragment acc +:+ "," +:+ fragment pairs.
Proof.
  intros Hacc Hpairs. unfold fragment. rewrite !map_app.
  apply join_app; by destruct acc, pairs.
Qed.

Lemma length_flat_map_sum {A B} (f : A -> list B) (l : list A) :
  length (flat_map f l) = list_sum (map (fun x => length (f x)) l).
Proof.
  induction l as [|x l IH]; [reflexivity|].
  cbn [flat_map map list_sum]. by rewrite length_app, IH.
Qed.

Lemma flat_map_singleton {A B} (f : A -> B) (l : list A) :
  flat_map (fun x => [f x]) l = map f l.
Proof. induction l as [|x l IH]; [reflexivity|]. cbn. by rewrite IH. Qed.

Section Walk.

Variable rpc : string -> list (string * string).
Variable QUICK_MODE : bool.
Variable arrival : string -> list nat.

Local Abbreviation resume := (Fetch.resume).
Local Abbreviation fetchChunks := (Fetch.fetchChunks rpc QUICK_MODE arrival).
Local Abbreviation Walked := (Fetch.Walked rpc QUICK_MODE).

(** *** The requests *)

Lemma requests_resume pairs st : requests (resume pairs st) = requests st.
Proof.
  unfold Fetch.resume. destruct (0 <? length pairs)%nat; [|reflexivity].
  by destruct (separator st).
Qed.

Lemma requests_fold_request (l : list string) st :
  requests (fold_left (fun s p => request p s) l st) = requests st ++ l.
Proof.
  revert st. induction l as [|p l IH]; intros st; cbn [fold_left].
  - by rewrite List.app_nil_r.
  - rewrite IH. cbn [request requests]. by rewrite <- List.app_assoc.
Qed.

Lemma requests_fold_resume (l : list (list (string * string))) st :
  requests (fold_left (fun s pairs => resume pairs s) l st) = requests st.
Proof.
  revert st. induction l as [|p l IH]; intros st; cbn [fold_left];
    [reflexivity|]. by rewrite IH, requests_resume.
Qed.

Lemma fold_left_map {A B C} (f : A -> B -> A) (g : C -> B) (l : list C) a :
  fold_left f (map g l) a = fold_left (fun x c => f x (g c)) l a.
Proof. revert a. induction l as [|c l IH]; intros a; [reflexivity|apply IH]. Qed.

Lemma requests_fold_walk (f : nat -> state -> state) (g : nat -> list string)
    (l : list nat) st :
  (forall i s, requests (f i s) = requests s ++ g i) ->
  requests (fold_left (fun s i => f i s) l st) = requests st ++ flat_map g l.
Proof.
  intros Hf. revert st. induction l as [|i l IH]; intros st; cbn [fold_left flat_map].
  - by rewrite List.app_nil_r.
  - by rewrite IH, Hf, <- List.app_assoc.
Qed.

Lemma requests_fetchChunks levelsRemaining prefix st :
  requests (fetchChunks prefix levelsRemaining st)
  = requests st ++ chunkAddresses prefix levelsRemaining.
Proof.
  revert prefix st.
  induction levelsRemaining as [|n IH]; intros prefix st.
  - cbn [Fetch.fetchChunks chunkAddresses]. by rewrite requests_resume.
  - cbn [Fetch.fetchChunks chunkAddresses].
    destruct (QUICK_MODE && (S n =? 1)%nat) eqn:Hquick.
    + apply andb_true_iff in Hquick as [_ Hn]. apply Nat.eqb_eq in Hn.
      injection Hn as ->. cbn [chunkAddresses]. rewrite flat_map_singleton.
      rewrite <- (fold_left_map (fun s pairs => resume pairs s)
                    (fun i => rpc (child prefix i))).
      rewrite requests_fold_resume.
      rewrite <- (fold_left_map (fun s p => request p s) (child prefix)).
      apply requests_fold_request.
    + apply requests_fold_walk. intros i s. apply IH.
Qed.

(** *** The stream *)

Lemma Streamed_initial : Streamed (write "[" initial) [].
Proof. by split. Qed.

Lemma Streamed_request p st acc : Streamed st acc -> Streamed (request p st) acc.
Proof. by intros [Hs Hsep]. Qed.

Lemma Streamed_resume pairs st acc :
  Streamed st acc -> Streamed (resume pairs st) (acc ++ pairs).
Proof.
  intros [Hs Hsep]. unfold Fetch.resume.
  destruct pairs as [|p pairs].
  - cbn [length Nat.ltb Nat.leb]. rewrite List.app_nil_r. by split.
  - change (0 <? length (p :: pairs))%nat with true. cbv iota.
    rewrite slice_stringify. destruct acc as [|a acc]; rewrite Hsep.
    + split; [|reflexivity].
      cbn [countChunk write setSeparator stream]. rewrite Hs.
      by rewrite append_assoc.
    + split; [|exact Hsep].
      cbn [countChunk write setSeparator stream]. rewrite Hs.
      rewrite fragment_app by done. by rewrite !append_assoc.
Qed.

Lemma chunksFetched_resume pairs st :
  chunksFetched (resume pairs st) = S (chunksFetched st).
Proof.
  unfold Fetch.resume. destruct (0 <? length pairs)%nat; [|reflexivity].
  by destruct (separator st).
Qed.

Lemma Walked_leaf prefix st :
  Walked st (resume (rpc prefix) (request prefix st)) [prefix].
Proof.
  split.
  - rewrite chunksFetched_resume. cbn. lia.
  - intros acc Hacc. exists [prefix]. split; [reflexivity|]. split; [done|].
    cbn [flat_map]. rewrite List.app_nil_r.
    by apply Streamed_resume, Streamed_request.
Qed.

Lemma Walked_fold (f : nat -> state -> state) (g : nat -> list string)
    (l : list nat) st :
  (forall i s, Walked s (f i s) (g i)) ->
  Walked st (fold_left (fun s i => f i s) l st) (flat_map g l).
Proof.
  intros Hf. revert st.
  induction l as [|i l IH]; intros st; cbn [fold_left flat_map].
  - split; [cbn; lia|]. intros acc Hacc. exists []. split; [reflexivity|].
    split; [done|]. cbn [flat_map]. by rewrite List.app_nil_r.
  - destruct (Hf i st) as [Hcount1 Hstream1].
    destruct (IH (f i st)) as [Hcount2 Hstream2]. split.
    + rewrite Hcount2, Hcount1, length_app. lia.
    + intros acc Hacc.
      destruct (Hstream1 acc Hacc) as (o1 & Hperm1 & Hseq1 & Hacc1).
      destruct (Hstream2 _ Hacc1) as (o2 & Hperm2 & Hseq2 & Hacc2).
      exists (o1 ++ o2). split; [by apply Permutation_app|]. split.
      * intros Hq. by rewrite Hseq1, Hseq2.
      * by rewrite flat_map_app, List.app_assoc.
Qed.

Lemma fold_request_frame (l : list string) st :
  chunksFetched (fold_left (fun s p => request p s) l st) = chunksFetched st
  /\ forall acc, Streamed st acc ->
                 Streamed (fold_left (fun s p => request p s) l st) acc.
Proof.
  revert st. induction l as [|p l IH]; intros st; cbn [fold_left]; [done|].
  destruct (IH (request p st)) as [Hcount Hstream]. split; [by rewrite Hcount|].
  intros acc Hacc. by apply Hstream, Streamed_request.
Qed.

Lemma fold_resume_walk (l : list string) st :
  chunksFetched (fold_left (fun s p => resume (rpc p) s) l st)
  = chunksFetched st + length l
  /\ forall acc, Streamed st acc ->
                 Streamed (fold_left (fun s p => resume (rpc p) s) l st)
                          (acc ++ flat_map rpc l).
Proof.
  revert st. induction l as [|p l IH]; intros st; cbn [fold_left flat_map].
  - split; [cbn; lia|]. intros acc Hacc. by rewrite List.app_nil_r.
  - destruct (IH (resume (rpc p) st)) as [Hcount Hstream]. split.
    + rewrite Hcount, chunksFetched_resume. cbn. lia.
    + intros acc Hacc. rewrite List.app_assoc.
      by apply Hstream, Streamed_resume.
Qed.

(** With the answers arriving in the order [arrival prefix], the quick
    branch walks the 256 children of [prefix]. *)
Lemma Walked_quick prefix st :
  QUICK_MODE = true ->
  Permutation (arrival prefix) (seq 0 256) ->
  Walked st
    (fold_left (fun s i => resume (rpc (child prefix i)) s) (arrival prefix)
       (fold_left (fun s i => request (child prefix i) s) (seq 0 256) st))
    (map (child prefix) (seq 0 256)).
Proof.
  intros Hquick Hperm.
  rewrite <- (fold_left_map (fun s p => request p s) (child prefix)).
  rewrite <- (fold_left_map (fun s p => resume (rpc p) s) (child prefix)).
  destruct (fold_request_frame (map (child prefix) (seq 0 256)) st)
    as [Hcount1 Hstream1].
  destruct (fold_resume_walk (map (child prefix) (arrival prefix))
              (fold_left (fun s p => request p s)
                 (map (child prefix) (seq 0 256)) st))
    as [Hcount2 Hstream2].
  split.
  - rewrite Hcount2, Hcount1, !length_map. f_equal.
    by apply Permutation_length.
  - intros acc Hacc. exists (map (child prefix) (arrival prefix)).
    split; [by apply Permutation_map|]. split; [congruence|].
    by apply Hstream2, Hstream1.
Qed.

Hypothesis arrival_complete :
  QUICK_MODE = true -> forall prefix, Permutation (arrival prefix) (seq 0 256).

Lemma Walked_fetchChunks levelsRemaining prefix st :
  Walked st (fetchChunks prefix levelsRemaining st)
         (chunkAddresses prefix levelsRemaining).
Proof.
  revert prefix st.
  induction levelsRemaining as [|n IH]; intros prefix st.
  - apply Walked_leaf.
  - cbn [Fetch.fetchChunks chunkAddresses].
    destruct (QUICK_MODE && (S n =? 1)%nat) eqn:Hquick.
    + apply andb_true_iff in Hquick as [Hq Hn]. apply Nat.eqb_eq in Hn.
      injection Hn as ->. cbn [chunkAddresses]. rewrite flat_map_singleton.
      apply Walked_quick; [exact Hq|by apply arrival_complete].
    + apply (Walked_fold (fun i s => fetchChunks (child prefix i) n s)).
      intros i s. apply IH.
Qed.

(** The file after the fetch is the text of one array of pairs: the pairs of
    the chunks, chunk after chunk, in some order of the chunks. *)
Lemma fetchStorage_stream chunksLevel :
  exists order,
    Permutation order (chunkAddresses "0x" chunksLevel)
    /\ (QUICK_MODE = false -> order = chunkAddresses "0x" chunksLevel)
    /\ stream (fetchStorage rpc QUICK_MODE arrival chunksLevel)
       = JSON.stringify (pairsValue (flat_map rpc order)).
Proof.
  destruct (Walked_fetchChunks chunksLevel "0x" (write "[" initial))
    as [_ Hstream].
  destruct (Hstream [] Streamed_initial) as (order & Hperm & Hseq & [Hs _]).
  exists order. split; [exact Hperm|]. split; [exact Hseq|].
  unfold fetchStorage. cbn [write stream]. rewrite Hs.
  unfold pairsValue. cbn [JSON.stringify app]. by rewrite append_assoc.
Qed.

Lemma fetchStorage_count chunksLevel :
  chunksFetched (fetchStorage rpc QUICK_MODE arrival chunksLevel)
  = totalChunks chunksLevel.
Proof.
  destruct (Walked_fetchChunks chunksLevel "0x" (write "[" initial))
    as [Hcount _].
  unfold fetchStorage. cbn [write chunksFetched]. rewrite Hcount.
  cbn [write chunksFetched initial].
  by rewrite KeyspaceFacts.chunkAddresses_length.
Qed.

End Walk.

Lemma fetchStorage_requests rpc quick arrival chunksLevel :
  requests (fetchStorage rpc quick arrival chunksLevel)
  = chunkAddresses "0x" chunksLevel.
Proof.
  unfold fetchStorage. cbn [write requests].
  by rewrite requests_fetchChunks.
Qed.

(** *** The claims about the fetch *)

(** C1. For every depth, every node and both modes (in quick mode, whatever
    the order in which the 256 answers below a prefix arrive), the fetch
    queries exactly the leaf chunks of that depth (the prefixes "0x"
    followed by the two-digit bytes of a byte string of that length, of
    which there are [totalChunks]), and the file it leaves
    parses as one JSON array; the elements of the array are the pairs the
    range queries of the leaf chunks returned, so there are as many as
    those queries returned in total; outside quick mode they are in the
    order of the walk. *)
Theorem fetch_complete rpc quick arrival chunksLevel :
  (quick = true -> forall prefix, Permutation (arrival prefix) (seq 0 256)) ->
  let st := fetchStorage rpc quick arrival chunksLevel in
  let leaves := chunkAddresses "0x" chunksLevel in
  requests st = leaves
  /\ length leaves = totalChunks chunksLevel
  /\ (forall p,
        In p leaves
        <-> exists bs, length bs = chunksLevel /\ p = keyOfBytes bs)
  /\ exists pairs,
       JSON.parse (stream st) = Some (JSON.JArr (map pairValue pairs))
       /\ length (map pairValue pairs)
          = list_sum (map (fun prefix => length (rpc prefix)) leaves)
       /\ length (map pairValue pairs)
          = list_sum (map (fun prefix => length (rpc prefix)) (requests st))
       /\ Permutation pairs (flat_map rpc leaves)
       /\ (quick = false -> pairs = flat_map rpc leaves).
Proof.
  intros Harrival st leaves. unfold st, leaves.
  rewrite fetchStorage_requests.
  split; [reflexivity|].
  split; [apply KeyspaceFacts.chunkAddresses_length|].
  split; [intros p; apply KeyspaceFacts.In_chunkAddresses|].
  destruct (fetchStorage_stream rpc quick arrival Harrival chunksLevel)
    as (order & Hperm & Hseq & Hstream).
  assert (length (map pairValue (flat_map rpc order))
          = list_sum (map (fun prefix => length (rpc prefix))
                          (chunkAddresses "0x" chunksLevel))) as Hcount.
  { rewrite length_map, <- length_flat_map_sum.
    apply Permutation_length, Permutation_flat_map, Hperm. }
  exists (flat_map rpc order). split; [|split; [|split; [|split]]].
  - rewrite Hstream. apply JSONFacts.parse_stringify.
  - exact Hcount.
  - exact Hcount.
  - apply Permutation_flat_map, Hperm.
  - intros Hq. by rewrite (Hseq Hq).
Qed.

(** C4 as amended. For every depth the walk requests [256 ^ chunksLevel]
    distinct prefixes, each "0x" followed by the two-digit bytes of a byte
    string of that length; a key of at least that many bytes starts with
    exactly one of them, the one made of its first bytes, and a shorter key
    starts with none. *)
Theorem chunk_partition rpc quick arrival chunksLevel :
  let leaves := requests (fetchStorage rpc quick arrival chunksLevel) in
  length leaves = totalChunks chunksLevel
  /\ List.NoDup leaves
  /\ (forall p,
        In p leaves
        <-> exists bs, length bs = chunksLevel /\ p = keyOfBytes bs)
  /\ (forall bs,
        chunksLevel <= length bs ->
        In (keyOfBytes (firstn chunksLevel bs)) leaves
        /\ forall p,
             In p leaves ->
             JS.startsWith (keyOfBytes bs) p = true
             <-> p = keyOfBytes (firstn chunksLevel bs))
  /\ (forall bs,
        length bs < chunksLevel ->
        forall p, In p leaves -> JS.startsWith (keyOfBytes bs) p = false).
Proof.
  intros leaves. unfold leaves. rewrite fetchStorage_requests.
  split; [apply KeyspaceFacts.chunkAddresses_length|].
  split; [apply NoDup_ListNoDup, KeyspaceFacts.chunkAddresses_NoDup|].
  split; [intros p; apply KeyspaceFacts.In_chunkAddresses|].
  split.
  - intros bs Hlen. split.
    + apply KeyspaceFacts.In_chunkAddresses. exists (firstn chunksLevel bs).
      split; [|reflexivity]. rewrite length_firstn. lia.
    + intros p Hp. by apply KeyspaceFacts.chunk_of_key.
  - intros bs Hlen p Hp. by eapply KeyspaceFacts.short_key_uncovered.
Qed.

End FetchFacts.

(** ** The fetch on the sample inputs *)

Module FetchSamples.

Import Fetch Keyspace.

Example leaves_level1_ends :
  let leaves := requests (fetchStorage sampleRpc false (fun _ => []) 1) in
  hd "" leaves = "0x00" /\ nth 10 leaves "" = "0x0a" /\ List.last leaves "" = "0xff".
Proof. vm_compute. by repeat split. Qed.

Example codeBytes_key : keyOfBytes codeBytes = Main.codeKey.
Proof. reflexivity. Qed.

Lemma fetch_complete_witness :
  (true = true ->
   forall prefix : string, Permutation (rev (seq 0 256)) (seq 0 256))
  /\ requests (fetchStorage sampleRpc true (fun _ => rev (seq 0 256)) 1)
     = chunkAddresses "0x" 1
  /\ exists pairs,
       JSON.parse (stream (fetchStorage sampleRpc true
                             (fun _ => rev (seq 0 256)) 1))
       = Some (JSON.JArr (map pairValue pairs))
       /\ length (map pairValue pairs) = 3
       /\ Permutation pairs (flat_map sampleRpc (chunkAddresses "0x" 1)).
Proof.
  assert (true = true ->
          forall prefix : string, Permutation (rev (seq 0 256)) (seq 0 256))
    as H by (intros _ _; symmetry; apply Permutation_rev).
  split; [exact H|].
  destruct (FetchFacts.fetch_complete sampleRpc true
              (fun _ => rev (seq 0 256)) 1 H)
    as (Hleaves & _ & _ & pairs & Hparse & Hcount & _ & Hperm & _).
  split; [exact Hleaves|].
  exists pairs. split; [exact Hparse|]. split; [|exact Hperm].
  rewrite Hcount. vm_compute. reflexivity.
Defined.

Lemma chunk_partition_witness :
  2 <= length codeBytes
  /\ In "0x3a63" (requests (fetchStorage sampleRpc false (fun _ => []) 2))
  /\ (JS.startsWith Main.codeKey "0x3a63" = true
      <-> "0x3a63" = keyOfBytes (firstn 2 codeBytes)).
Proof.
  assert (2 <= length codeBytes) as H by (cbn; lia).
  split; [exact H|].
  destruct (FetchFacts.chunk_partition sampleRpc false (fun _ => []) 2)
    as (_ & _ & _ & Hlong & _).
  destruct (Hlong codeBytes H) as [Hin Huniq].
  split; [exact Hin|]. exact (Huniq "0x3a63" Hin).
Defined.

(** C4 as first stated fails: at depth 6 the key [:code], of five bytes,
    starts with none of the prefixes requested, and at depth 1 neither does
    the empty key. *)
Lemma short_key_in_no_chunk :
  Forall (fun p => JS.startsWith Main.codeKey p = false)
         (requests (fetchStorage sampleRpc false (fun _ => []) 6))
  /\ Forall (fun p => JS.startsWith (keyOfBytes []) p = false)
            (requests (fetchStorage sampleRpc false (fun _ => []) 1)).
Proof.
  rewrite !FetchFacts.fetchStorage_requests. split.
  - apply List.Forall_forall. intros p Hp.
    apply (KeyspaceFacts.short_key_uncovered 6 codeBytes p); [cbn; lia|exact Hp].
  - apply List.Forall_forall. intros p Hp.
    apply (KeyspaceFacts.short_key_uncovered 1 [] p); [cbn; lia|exact Hp].
Qed.

End FetchSamples.

(** ** Facts about the splice *)

Module MainFacts.

Import Main.

Section Facts.

Context {JSValue : Type}.
Variable xxhashAsHex : string -> nat -> string.

Implicit Types (st : @state JSValue) (f : @GenesisSpec JSValue).
Implicit Types (t : gmap string string).

(** *** The prefix list *)

Lemma prefixes_populate modules st :
  prefixes (populatePrefixes xxhashAsHex modules st)
  = fold_left
      (fun ps module =>
         match Metadata.storage module with
         | Some s =>
             if negb (includes skippedModulesPrefix (Metadata.prefix s))
             then (ps ++ [xxhashAsHex (Metadata.prefix s) 128])%list
             else ps
         | None => ps
         end)
      modules (prefixes st).
Proof.
  unfold populatePrefixes. revert st.
  induction modules as [|m modules IH]; intros st; simpl; [reflexivity|].
  rewrite IH. f_equal. unfold addModulePrefix.
  destruct (Metadata.storage m) as [s|]; [|reflexivity].
  destruct (negb _); reflexivity.
Qed.

Lemma populate_frame modules st :
  storage (populatePrefixes xxhashAsHex modules st) = storage st
  /\ originalSpec (populatePrefixes xxhashAsHex modules st) = originalSpec st
  /\ forkedSpec (populatePrefixes xxhashAsHex modules st) = forkedSpec st.
Proof.
  unfold populatePrefixes. revert st.
  induction modules as [|m modules IH]; intros st; simpl; [tauto|].
  destruct (IH (addModulePrefix xxhashAsHex st m)) as (-> & -> & ->).
  unfold addModulePrefix.
  destruct (Metadata.storage m) as [s|]; [|tauto].
  destruct (negb _); simpl; tauto.
Qed.

Lemma prefixList_contributions modules :
  prefixList xxhashAsHex modules
  = pinnedPrefixes ++ flat_map (contribution xxhashAsHex) modules.
Proof.
  unfold prefixList. generalize pinnedPrefixes as ps.
  induction modules as [|m modules IH]; intros ps; cbn [fold_left flat_map].
  - by rewrite List.app_nil_r.
  - rewrite IH, List.app_assoc. f_equal. unfold contribution.
    destruct (Metadata.storage m) as [s|]; [|by rewrite List.app_nil_r].
    destruct (includes _ _); cbn [negb]; [by rewrite List.app_nil_r|reflexivity].
Qed.

Lemma includes_In a x : includes a x = true <-> In x a.
Proof.
  unfold includes. rewrite existsb_exists. split.
  - intros (y & Hy & Heq). apply String.eqb_eq in Heq. now subst.
  - intros H. exists x. split; [assumption|apply String.eqb_refl].
Qed.

(** *** Storage maps under a run of assignments and under the table *)

Lemma lookup_assignments_other (l : list (string * string)) t k :
  ~ In k (map fst l) -> fold_left assignPair l t !! k = t !! k.
Proof.
  revert t. induction l as [|[k' v'] l IH]; intros t Hk; cbn [fold_left].
  - reflexivity.
  - rewrite IH by (intros H; apply Hk; right; exact H).
    unfold assignPair; cbn [fst snd]. apply lookup_insert_ne.
    intros ->. apply Hk. left. reflexivity.
Qed.

Lemma lookup_assignments_last (l1 l2 : list (string * string)) t k v :
  ~ In k (map fst l2) ->
  fold_left assignPair (l1 ++ (k, v) :: l2) t !! k = Some v.
Proof.
  intros Hk. rewrite fold_left_app. cbn [fold_left].
  rewrite lookup_assignments_other by exact Hk.
  unfold assignPair at 1; cbn [fst snd]. apply lookup_insert_eq.
Qed.

Lemma lookup_overrides_other (tbl : list (string * option string)) t k :
  ~ In k (map fst tbl) -> fold_left applyOverride tbl t !! k = t !! k.
Proof.
  revert t. induction tbl as [|[k' a] tbl IH]; intros t Hk; cbn [fold_left].
  - reflexivity.
  - rewrite IH by (intros H; apply Hk; right; exact H).
    assert (k' <> k) as Hne by (intros ->; apply Hk; left; reflexivity).
    unfold applyOverride; cbn [fst snd]. destruct a as [v|].
    + by apply lookup_insert_ne.
    + by apply lookup_delete_ne.
Qed.

Lemma lookup_overrides_row (tbl : list (string * option string)) t k a :
  NoDup (map fst tbl) -> In (k, a) tbl ->
  fold_left applyOverride tbl t !! k = a.
Proof.
  revert t. induction tbl as [|[k' a'] tbl IH]; intros t Hnd Hin; [destruct Hin|].
  cbn [map fst] in Hnd. apply NoDup_cons in Hnd as [Hfresh Hnd].
  cbn [fold_left]. destruct Hin as [Heq|Hin].
  - injection Heq as -> ->. rewrite lookup_overrides_other.
    + unfold applyOverride; cbn [fst snd]. destruct a as [v|].
      * apply lookup_insert_eq.
      * apply lookup_delete_eq.
    + intros H. apply Hfresh. by apply list_elem_of_In.
  - by apply IH.
Qed.

Lemma overrideTable_keys_NoDup hex : NoDup (map fst (overrideTable hex)).
Proof.
  cbn [overrideTable map fst]. compute_done.
Qed.

(** *** The state after the splice *)

Lemma fold_assignTop (l : list (string * string)) st :
  fold_left (fun s i => assignTop (fst i) (snd i) s) l st
  = setForked (setTop (fold_left assignPair l (top (forkedSpec st)))
                      (forkedSpec st)) st.
Proof.
  revert st. induction l as [|i l IH]; intros st; cbn [fold_left].
  - destruct st as [ps sto o [n i' p t r]]. reflexivity.
  - rewrite IH. reflexivity.
Qed.

Lemma splice_eq hex st :
  splice hex st
  = {| prefixes := prefixes st;
       storage := storage st;
       originalSpec := originalSpec st;
       forkedSpec :=
         {| name := name (originalSpec st) +:+ "-fork";
            id := id (originalSpec st) +:+ "-fork";
            protocolId := protocolId (originalSpec st);
            top := fold_left applyOverride (overrideTable hex)
                     (fold_left assignPair
                        (List.filter (selected (prefixes st)) (storage st))
                        (top (forkedSpec st)));
            otherFields := otherFields (forkedSpec st) |} |}.
Proof.
  unfold splice, transplant. rewrite fold_assignTop. reflexivity.
Qed.

Lemma main_eq modules sto (original forked : @GenesisSpec JSValue) hex :
  main xxhashAsHex modules sto original forked hex
  = {| prefixes := prefixList xxhashAsHex modules;
       storage := sto;
       originalSpec := original;
       forkedSpec :=
         {| name := name original +:+ "-fork";
            id := id original +:+ "-fork";
            protocolId := protocolId original;
            top := fold_left applyOverride (overrideTable hex)
                     (fold_left assignPair
                        (List.filter (selected (prefixList xxhashAsHex modules)) sto)
                        (top forked));
            otherFields := otherFields forked |} |}.
Proof.
  unfold main. rewrite splice_eq.
  destruct (populate_frame modules
              {| prefixes := pinnedPrefixes; storage := sto;
                 originalSpec := original; forkedSpec := forked |})
    as (-> & -> & ->).
  rewrite prefixes_populate. reflexivity.
Qed.

Lemma splice_top hex st :
  top (forkedSpec (splice hex st))
  = fold_left applyOverride (overrideTable hex)
      (fold_left assignPair
         (List.filter (selected (prefixes st)) (storage st))
         (top (forkedSpec st))).
Proof. rewrite splice_eq. reflexivity. Qed.

Lemma transplant_top st :
  top (forkedSpec (transplant (renameFork st)))
  = fold_left assignPair
      (List.filter (selected (prefixes st)) (storage st)) (top (forkedSpec st)).
Proof. unfold transplant. rewrite fold_assignTop. reflexivity. Qed.

Lemma selected_key ps k v v' : selected ps (k, v) = selected ps (k, v').
Proof. reflexivity. Qed.

Lemma unselected_key_absent ps (l : list (string * string)) k v :
  selected ps (k, v) = false ->
  ~ In k (map fst (List.filter (selected ps) l)).
Proof.
  intros Hsel Hin. apply in_map_iff in Hin as ([k' v'] & Hk & Hin).
  cbn [fst] in Hk. subst k'. apply filter_In in Hin as [_ Hin].
  rewrite (selected_key ps k v' v) in Hin. congruence.
Qed.

Lemma selected_by ps p k v :
  In p ps -> JS.startsWith k p = true -> selected ps (k, v) = true.
Proof.
  intros Hp Hk. unfold selected. apply existsb_exists. exists p. by split.
Qed.

Lemma SystemAccount_pinned modules : In SystemAccount (prefixList xxhashAsHex modules).
Proof.
  rewrite prefixList_contributions. apply in_or_app. left. left. reflexivity.
Qed.

Lemma under_SystemAccount_not_overridden hex k :
  JS.startsWith k SystemAccount = true -> ~ In k (map fst (overrideTable hex)).
Proof.
  intros Hk Hin. cbn [overrideTable map fst In] in Hin.
  repeat (destruct Hin as [<-|Hin]; [vm_compute in Hk; discriminate Hk|]).
  exact Hin.
Qed.

(** *** The claims about the splice *)

(** C7. The splice sets the name of the forked specification to the name of
    the original one followed by "-fork", its id to the original id followed
    by "-fork", and its protocol id to the original protocol id, whatever
    the template held; an original specification named "kusama" with id "ks"
    gives the name "kusama-fork" and the id "ks-fork". *)
Theorem identity_rewrite hex st :
  name (forkedSpec (splice hex st)) = name (originalSpec st) +:+ "-fork"
  /\ id (forkedSpec (splice hex st)) = id (originalSpec st) +:+ "-fork"
  /\ protocolId (forkedSpec (splice hex st)) = protocolId (originalSpec st)
  /\ let kusama :=
       {| name := "kusama"; id := "ks";
          protocolId := protocolId (originalSpec st);
          top := top (originalSpec st);
          otherFields := otherFields (originalSpec st) |} in
     let st' :=
       splice hex {| prefixes := prefixes st; storage := storage st;
                     originalSpec := kusama; forkedSpec := forkedSpec st |} in
     name (forkedSpec st') = "kusama-fork" /\ id (forkedSpec st') = "ks-fork".
Proof.
  split; [by rewrite splice_eq|]. split; [by rewrite splice_eq|].
  split; [by rewrite splice_eq|].
  intros kusama st'. unfold st'. rewrite splice_eq. by split.
Qed.

(** C6. After the splice the code key [0x3a636f6465] of the storage map holds
    "0x" followed by the trimmed content of the hex file of the runtime,
    whatever the snapshot and the template held for that key. *)
Theorem code_injected hex st :
  top (forkedSpec (splice hex st)) !! codeKey = Some ("0x" +:+ JS.trim hex).
Proof.
  rewrite splice_top.
  apply lookup_overrides_row; [apply overrideTable_keys_NoDup|].
  right. left. reflexivity.
Qed.

(** C2. The table is applied after the transplant: a key that is moved from
    the snapshot and is also a row of the table ends with what the row says,
    the fixed value of an assignment or no entry for the deletion, and so
    never with a snapshot value that differs from it. *)
Theorem overrides_win hex st k v a :
  In (k, v) (List.filter (selected (prefixes st)) (storage st)) ->
  In (k, a) (overrideTable hex) ->
  top (forkedSpec (splice hex st)) !! k = a
  /\ (a <> Some v -> top (forkedSpec (splice hex st)) !! k <> Some v).
Proof.
  intros _ Hrow.
  assert (top (forkedSpec (splice hex st)) !! k = a) as ->.
  { rewrite splice_top.
    by apply lookup_overrides_row; [apply overrideTable_keys_NoDup|]. }
  by split.
Qed.

(** C3 as amended. A pair of the snapshot whose key starts with no prefix of
    the list is not among the pairs moved, the transplant leaves the entry of
    its key as the template had it, and the entry of that key in the output
    is the one the template and the table alone give: the value of the pair
    is found there only when they already hold it, and the key has no entry
    there when the template has none and the table does not name it. *)
Theorem unselected_not_transplanted hex st k v :
  In (k, v) (storage st) ->
  selected (prefixes st) (k, v) = false ->
  ~ In (k, v) (List.filter (selected (prefixes st)) (storage st))
  /\ top (forkedSpec (transplant (renameFork st))) !! k
     = top (forkedSpec st) !! k
  /\ top (forkedSpec (splice hex st)) !! k
     = fold_left applyOverride (overrideTable hex) (top (forkedSpec st)) !! k
  /\ (top (forkedSpec st) !! k = None ->
      ~ In k (map fst (overrideTable hex)) ->
      top (forkedSpec (splice hex st)) !! k = None).
Proof.
  intros _ Hsel.
  assert (~ In k (map fst (List.filter (selected (prefixes st)) (storage st))))
    as Hmoved by (by eapply unselected_key_absent).
  split; [|split; [|split]].
  - intros Hin. apply filter_In in Hin as [_ Hin]. congruence.
  - rewrite transplant_top. by apply lookup_assignments_other.
  - rewrite splice_top.
    destruct (in_dec string_dec k (map fst (overrideTable hex))) as [Hin|Hout].
    + apply in_map_iff in Hin as ([k' a] & Hk & Hin). cbn [fst] in Hk. subst k'.
      rewrite !(lookup_overrides_row _ _ k a);
        auto using overrideTable_keys_NoDup.
    + rewrite !lookup_overrides_other by exact Hout.
      by apply lookup_assignments_other.
  - intros Hnone Hout. rewrite splice_top.
    rewrite lookup_overrides_other by exact Hout.
    by rewrite lookup_assignments_other.
Qed.

(** C8. When the key of System.LastRuntimeUpgrade is absent from the storage
    map of the forked specification at the deletion, the deletion changes
    nothing: the state is the same after it, and the splice is the splice
    without the deletion.  The key is absent there when the template lacks
    it and no pair moved from the snapshot has it. *)
Theorem delete_absent_noop hex st0 :
  let st := transplant (renameFork st0) in
  (top (forkedSpec st) !! LastRuntimeUpgrade = None ->
   deleteTop LastRuntimeUpgrade st = st
   /\ splice hex st0
      = fixedOverrides (assignTop codeKey ("0x" +:+ JS.trim hex) st))
  /\ (top (forkedSpec st0) !! LastRuntimeUpgrade = None ->
      ~ In LastRuntimeUpgrade
          (map fst (List.filter (selected (prefixes st0)) (storage st0))) ->
      top (forkedSpec st) !! LastRuntimeUpgrade = None).
Proof.
  intros st. split.
  - intros Habsent.
    assert (deleteTop LastRuntimeUpgrade st = st) as Hsame.
    { unfold deleteTop. rewrite delete_id by exact Habsent.
      destruct st as [ps sto o [n i p t r]]. reflexivity. }
    split; [exact Hsame|].
    unfold splice. fold st. rewrite Hsame. reflexivity.
  - intros Htemplate Hmoved. unfold st. rewrite transplant_top.
    by rewrite lookup_assignments_other.
Qed.

(** C9. The splice changes the name, the id, the protocol id and the storage
    map of the forked specification and nothing else: its other fields are
    those of the template, an entry of the storage map whose key is neither
    the key of a moved pair nor a key of the table keeps its template value,
    and the original specification, the snapshot and the prefix list are the
    same after the splice. *)
Theorem splice_frame hex st :
  otherFields (forkedSpec (splice hex st)) = otherFields (forkedSpec st)
  /\ (forall k,
        ~ In k (map fst (List.filter (selected (prefixes st)) (storage st))) ->
        ~ In k (map fst (overrideTable hex)) ->
        top (forkedSpec (splice hex st)) !! k = top (forkedSpec st) !! k)
  /\ originalSpec (splice hex st) = originalSpec st
  /\ storage (splice hex st) = storage st
  /\ prefixes (splice hex st) = prefixes st.
Proof.
  split; [by rewrite splice_eq|]. split; [|by rewrite splice_eq].
  intros k Hmoved Htable. rewrite splice_top.
  rewrite lookup_overrides_other by exact Htable.
  by apply lookup_assignments_other.
Qed.

(** C10. The prefix of System.Account is in the prefix list whatever the
    metadata, so a pair of the snapshot whose key starts with it is among
    the pairs moved, and the output holds the value of the last such pair
    for that key. *)
Theorem SystemAccount_transplanted modules l1 l2
    (original forked : @GenesisSpec JSValue) hex k v :
  JS.startsWith k SystemAccount = true ->
  ~ In k (map fst l2) ->
  let sto := l1 ++ (k, v) :: l2 in
  let st := main xxhashAsHex modules sto original forked hex in
  In SystemAccount (prefixes st)
  /\ In (k, v) (List.filter (selected (prefixes st)) sto)
  /\ top (forkedSpec st) !! k = Some v.
Proof.
  intros Hk Hlast sto st. unfold st. rewrite main_eq. cbn [prefixes forkedSpec top].
  pose proof (SystemAccount_pinned modules) as Hpin.
  assert (selected (prefixList xxhashAsHex modules) (k, v) = true) as Hsel
      by (by eapply selected_by).
  split; [exact Hpin|]. split.
  - apply filter_In. split; [|exact Hsel]. unfold sto. apply in_elt.
  - rewrite lookup_overrides_other
      by (by apply under_SystemAccount_not_overridden).
    unfold sto. rewrite List.filter_app. cbn [List.filter]. rewrite Hsel.
    apply lookup_assignments_last.
    intros Hin. apply Hlast. apply in_map_iff in Hin as (i & Hi & Hin).
    apply filter_In in Hin as [Hin _]. apply in_map_iff. by exists i.
Qed.

(** C5 as amended. [main] leaves in [prefixes] the pinned prefixes, as they
    are and first, followed by what [modules.forEach] pushed: for a module
    with a storage section, the 128-bit hash of its storage prefix string
    exactly when that string is not in the skip list, whatever the name of
    the module; nothing for a module whose storage prefix is in the skip
    list or that has no storage.  For the modules System, Balances and
    Staking, each with its name as storage prefix, the list is the pinned
    prefix followed by the hashes of Balances and of Staking, so the hash of
    System is in it only if it collides with one of these three. *)
Theorem prefix_registry modules sto (original forked : @GenesisSpec JSValue)
    hex :
  let initial :=
    {| prefixes := pinnedPrefixes; storage := sto;
       originalSpec := original; forkedSpec := forked |} in
  let ps := prefixes (main xxhashAsHex modules sto original forked hex) in
  ps = prefixes (populatePrefixes xxhashAsHex modules initial)
  /\ ps = pinnedPrefixes ++ flat_map (contribution xxhashAsHex) modules
  /\ incl pinnedPrefixes ps
  /\ (forall h,
        In h ps <->
        In h pinnedPrefixes
        \/ exists module s,
             In module modules /\ Metadata.storage module = Some s
             /\ ~ In (Metadata.prefix s) skippedModulesPrefix
             /\ h = xxhashAsHex (Metadata.prefix s) 128)
  /\ (forall (st : @state JSValue) module s,
        Metadata.storage module = Some s ->
        (~ In (Metadata.prefix s) skippedModulesPrefix ->
         prefixes (addModulePrefix xxhashAsHex st module)
         = prefixes st ++ [xxhashAsHex (Metadata.prefix s) 128])
        /\ (In (Metadata.prefix s) skippedModulesPrefix ->
            addModulePrefix xxhashAsHex st module = st))
  /\ (forall (st : @state JSValue) module,
        Metadata.storage module = None ->
        addModulePrefix xxhashAsHex st module = st)
  /\ (let example :=
        prefixes
          (main xxhashAsHex
             [ Metadata.plainModule "System"; Metadata.plainModule "Balances";
               Metadata.plainModule "Staking" ] sto original forked hex) in
      example
      = [ SystemAccount; xxhashAsHex "Balances" 128; xxhashAsHex "Staking" 128 ]
      /\ (~ In (xxhashAsHex "System" 128)
              [ SystemAccount; xxhashAsHex "Balances" 128;
                xxhashAsHex "Staking" 128 ] ->
          ~ In (xxhashAsHex "System" 128) example)).
Proof.
  intros initial ps.
  assert (forall ms,
            prefixes (main xxhashAsHex ms sto original forked hex)
            = prefixList xxhashAsHex ms) as Hmain
      by (intros ms; by rewrite main_eq).
  assert (ps = pinnedPrefixes ++ flat_map (contribution xxhashAsHex) modules)
    as Hps by (unfold ps; by rewrite Hmain, prefixList_contributions).
  split; [|split; [exact Hps|split; [|split; [|split; [|split]]]]].
  - unfold ps, initial. by rewrite Hmain, prefixes_populate.
  - rewrite Hps. apply incl_appl, incl_refl.
  - intros h. rewrite Hps, in_app_iff, in_flat_map.
    split; (intros [Hpin|Hmod]; [by left|right]).
    + destruct Hmod as (module & Hin & Hh). unfold contribution in Hh.
      destruct (Metadata.storage module) as [s|] eqn:Hs; [|destruct Hh].
      destruct (includes _ _) eqn:Hinc; [destruct Hh|].
      destruct Hh as [<-|[]]. exists module, s. repeat split; try done.
      intros H. apply includes_In in H. congruence.
    + destruct Hmod as (module & s & Hin & Hs & Hout & ->).
      exists module. split; [exact Hin|]. unfold contribution. rewrite Hs.
      destruct (includes _ _) eqn:Hinc; [|by left].
      apply includes_In in Hinc. contradiction.
  - intros st module s Hs. unfold addModulePrefix. rewrite Hs. split.
    + intros Hout.
      destruct (includes _ _) eqn:Hinc; [|reflexivity].
      apply includes_In in Hinc. contradiction.
    + intros Hin. apply includes_In in Hin. by rewrite Hin.
  - intros st module Hnone. unfold addModulePrefix. by rewrite Hnone.
  - intros example. unfold example. rewrite Hmain. split; [reflexivity|].
    intros Hout. exact Hout.
Qed.

End Facts.

End MainFacts.

(** ** The splice on the sample inputs *)

Module MainSamples.

Import Main.

Example sample_prefixList :
  prefixList sampleHash sampleModules
  = [ SystemAccount; "0xc2261276cc9d1f8598ea4b6a74b15c2f";
      "0x5f3e4907f716ac89b6347d15ececedca" ].
Proof. reflexivity. Qed.

Example sample_splice_top :
  let t := top (forkedSpec (main sampleHash sampleModules sampleStorage
                                 sampleOriginal sampleForked "0061736d ")) in
  t !! (SystemAccount +:+ "aa") = Some "0x01"
  /\ t !! "0xbb22" = Some "0x02"
  /\ t !! LastRuntimeUpgrade = None
  /\ t !! codeKey = Some "0x0061736d"
  /\ t !! ForceEra = Some "0x02"
  /\ t !! HostConfiguration = Some HostConfigurationValue
  /\ t !! CouncilMembers = Some AliceOnly
  /\ t !! TechnicalCommitteeMembers = Some AliceOnly
  /\ t !! Eligibility = Some "0x64"
  /\ size t = 8.
Proof. vm_compute. by repeat split. Qed.

(** The end-to-end scenario: one selected pair, one unselected pair, an empty
    template. *)
Example transplant_scenario :
  map_to_list
    (top (forkedSpec (transplant
            {| prefixes := ["0xaa"];
               storage := [("0xaa11", "0x01"); ("0xbb22", "0x02")];
               originalSpec := sampleOriginal;
               forkedSpec := setTop ∅ sampleForked |})))
  = [("0xaa11", "0x01")].
Proof. vm_compute. reflexivity. Qed.

Lemma prefix_registry_witness :
  prefixes (main sampleHash sampleModules sampleStorage
                 sampleOriginal sampleForked "00")
  = [ SystemAccount; "0xc2261276cc9d1f8598ea4b6a74b15c2f";
      "0x5f3e4907f716ac89b6347d15ececedca" ]
  /\ ~ In "0x26aa394eea5630e07c48ae0c9558cef7"
         (prefixes
            (main sampleHash
               [ Metadata.plainModule "System"; Metadata.plainModule "Balances";
                 Metadata.plainModule "Staking" ]
               sampleStorage sampleOriginal sampleForked "00")).
Proof.
  destruct (MainFacts.prefix_registry sampleHash sampleModules sampleStorage
              sampleOriginal sampleForked "00")
    as (_ & Hlist & _ & _ & _ & _ & _ & Hsystem).
  split; [exact Hlist|].
  apply Hsystem. vm_compute. intuition discriminate.
Defined.

(** C5 as first stated fails: the module named Authorship, a name of the
    skip list, has the storage prefix Uncles and its hash is added; the
    module named Finality, a name outside the skip list, has the storage
    prefix GrandpaFinality and nothing is added for it. *)
Lemma prefix_follows_storage_not_name :
  includes skippedModulesPrefix "Authorship" = true
  /\ includes skippedModulesPrefix "Finality" = false
  /\ map Metadata.name renamedModules = ["Authorship"; "Finality"]
  /\ prefixes (main sampleHash renamedModules sampleStorage
                    sampleOriginal sampleForked "00")
     = [ SystemAccount; sampleHash "Uncles" 128 ].
Proof.
  split; [reflexivity|]. split; [reflexivity|]. split; [reflexivity|].
  rewrite MainFacts.main_eq. reflexivity.
Qed.

Lemma overrides_win_witness :
  In (ForceEra, "0x00")
     (List.filter (selected (prefixes sampleState)) (storage sampleState))
  /\ In (ForceEra, Some "0x02") (overrideTable "00")
  /\ top (forkedSpec (splice "00" sampleState)) !! ForceEra = Some "0x02"
  /\ (Some "0x02" <> Some "0x00" ->
      top (forkedSpec (splice "00" sampleState)) !! ForceEra <> Some "0x00").
Proof.
  assert (In (ForceEra, "0x00")
            (List.filter (selected (prefixes sampleState)) (storage sampleState)))
    as H1 by (vm_compute; tauto).
  assert (In (ForceEra, Some "0x02") (overrideTable "00"))
    as H2 by (vm_compute; tauto).
  split; [exact H1|]. split; [exact H2|].
  exact (MainFacts.overrides_win "00" sampleState ForceEra "0x00"
           (Some "0x02") H1 H2).
Defined.

Lemma unselected_not_transplanted_witness :
  In ("0xbb22", "0x02") (storage sampleState)
  /\ selected (prefixes sampleState) ("0xbb22", "0x02") = false
  /\ ~ In ("0xbb22", "0x02")
       (List.filter (selected (prefixes sampleState)) (storage sampleState))
  /\ top (forkedSpec (transplant (renameFork sampleState))) !! "0xbb22"
     = top (forkedSpec sampleState) !! "0xbb22"
  /\ top (forkedSpec (splice "00" sampleState)) !! "0xbb22"
     = fold_left applyOverride (overrideTable "00")
         (top (forkedSpec sampleState)) !! "0xbb22".
Proof.
  assert (In ("0xbb22", "0x02") (storage sampleState))
    as H1 by (vm_compute; tauto).
  assert (selected (prefixes sampleState) ("0xbb22", "0x02") = false)
    as H2 by reflexivity.
  split; [exact H1|]. split; [exact H2|].
  destruct (MainFacts.unselected_not_transplanted "00" sampleState
              "0xbb22" "0x02" H1 H2) as (Hout & Hkeep & Hfinal & _).
  split; [exact Hout|]. split; [exact Hkeep|exact Hfinal].
Defined.

(** C3 as first stated fails: the pair [("0xbb22", "0x02")] of the sample
    snapshot starts with no prefix of the list, and the output holds its
    value under its key, because the template does. *)
Lemma unselected_value_in_output :
  In ("0xbb22", "0x02") (storage sampleState)
  /\ selected (prefixes sampleState) ("0xbb22", "0x02") = false
  /\ top (forkedSpec (splice "00" sampleState)) !! "0xbb22" = Some "0x02".
Proof.
  split; [vm_compute; tauto|]. split; [reflexivity|].
  vm_compute. reflexivity.
Qed.

Lemma delete_absent_noop_witness :
  top (forkedSpec sampleState) !! LastRuntimeUpgrade = None
  /\ deleteTop LastRuntimeUpgrade (transplant (renameFork sampleState))
     = transplant (renameFork sampleState)
  /\ splice "00" sampleState
     = fixedOverrides
         (assignTop codeKey ("0x" +:+ JS.trim "00")
            (transplant (renameFork sampleState))).
Proof.
  assert (top (forkedSpec sampleState) !! LastRuntimeUpgrade = None)
    as H0 by (vm_compute; reflexivity).
  assert (~ In LastRuntimeUpgrade
            (map fst (List.filter (selected (prefixes sampleState))
                                  (storage sampleState))))
    as H1 by (vm_compute; intuition discriminate).
  destruct (MainFacts.delete_absent_noop "00" sampleState) as [Hnoop Habsent].
  split; [exact H0|]. exact (Hnoop (Habsent H0 H1)).
Defined.

Lemma splice_frame_witness :
  otherFields (forkedSpec (splice "00" sampleState)) = "local"
  /\ top (forkedSpec (splice "00" sampleState)) !! "0xbb22" = Some "0x02"
  /\ originalSpec (splice "00" sampleState) = sampleOriginal
  /\ storage (splice "00" sampleState) = sampleStorage.
Proof.
  destruct (MainFacts.splice_frame "00" sampleState)
    as (Hother & Htop & Horig & Hsto & _).
  split; [exact Hother|]. split; [|split; [exact Horig|exact Hsto]].
  rewrite Htop.
  - vm_compute. reflexivity.
  - vm_compute. intuition discriminate.
  - vm_compute. intuition discriminate.
Defined.

Lemma SystemAccount_transplanted_witness :
  JS.startsWith (SystemAccount +:+ "aa") SystemAccount = true
  /\ ~ In (SystemAccount +:+ "aa")
       (map fst [(ForceEra, "0x00"); ("0xbb22", "0x02"); (codeKey, "0xdead")])
  /\ In SystemAccount
       (prefixes (main sampleHash sampleModules sampleStorage
                       sampleOriginal sampleForked "00"))
  /\ top (forkedSpec (main sampleHash sampleModules sampleStorage
                           sampleOriginal sampleForked "00"))
       !! (SystemAccount +:+ "aa") = Some "0x01".
Proof.
  assert (JS.startsWith (SystemAccount +:+ "aa") SystemAccount = true)
    as H1 by reflexivity.
  assert (~ In (SystemAccount +:+ "aa")
            (map fst [(ForceEra, "0x00"); ("0xbb22", "0x02"); (codeKey, "0xdead")]))
    as H2 by (vm_compute; intuition discriminate).
  split; [exact H1|]. split; [exact H2|].
  destruct (MainFacts.SystemAccount_transplanted sampleHash sampleModules
              [] [(ForceEra, "0x00"); ("0xbb22", "0x02"); (codeKey, "0xdead")]
              sampleOriginal sampleForked "00" (SystemAccount +:+ "aa") "0x01"
              H1 H2) as (Hpin & _ & Htop).
  split; [exact Hpin|exact Htop].
Defined.

End MainSamples.

(** ** More about the fetch: counting, order and the text of the file *)

Module FetchMore.

Import Fetch Keyspace Completion StringFacts.

Section Walk.

Variable rpc : string -> list (string * string).
Variable QUICK_MODE : bool.
Variable arrival : string -> list nat.

Local Abbreviation fetchChunks := (Fetch.fetchChunks rpc QUICK_MODE arrival).
Local Abbreviation completionOrder :=
  (Completion.completionOrder QUICK_MODE arrival).

Lemma fold_completion (f : nat -> state -> state) (g : nat -> list string)
    (l : list nat) st :
  (forall i s,
      chunksFetched (f i s) = chunksFetched s + length (g i)
      /\ forall acc, Streamed s acc ->
                     Streamed (f i s) (acc ++ flat_map rpc (g i))) ->
  chunksFetched (fold_left (fun s i => f i s) l st)
  = chunksFetched st + length (flat_map g l)
  /\ forall acc, Streamed st acc ->
                 Streamed (fold_left (fun s i => f i s) l st)
                          (acc ++ flat_map rpc (flat_map g l)).
Proof.
  intros Hf. revert st.
  induction l as [|i l IH]; intros st; cbn [fold_left flat_map].
  - split; [cbn; lia|]. intros acc Hacc. by rewrite List.app_nil_r.
  - destruct (Hf i st) as [Hcount1 Hstream1].
    destruct (IH (f i st)) as [Hcount2 Hstream2]. split.
    + rewrite Hcount2, Hcount1, length_app. lia.
    + intros acc Hacc. rewrite flat_map_app, List.app_assoc.
      by apply Hstream2, Hstream1.
Qed.

(** The walk below [prefix] counts one chunk for each answer processed and
    appends the pairs of the answers, in the order of completion. *)
Lemma completion_fetchChunks levelsRemaining prefix st :
  chunksFetched (fetchChunks prefix levelsRemaining st)
  = chunksFetched st + length (completionOrder prefix levelsRemaining)
  /\ forall acc,
       Streamed st acc ->
       Streamed (fetchChunks prefix levelsRemaining st)
                (acc ++ flat_map rpc (completionOrder prefix levelsRemaining)).
Proof.
  revert prefix st.
  induction levelsRemaining as [|n IH]; intros prefix st.
  - cbn [Fetch.fetchChunks Completion.completionOrder flat_map length].
    split.
    + rewrite FetchFacts.chunksFetched_resume. cbn. lia.
    + intros acc Hacc. rewrite List.app_nil_r.
      by apply FetchFacts.Streamed_resume, FetchFacts.Streamed_request.
  - cbn [Fetch.fetchChunks Completion.completionOrder].
    destruct (QUICK_MODE && (S n =? 1)%nat).
    + rewrite <- (FetchFacts.fold_left_map (fun s p => request p s)
                    (child prefix)).
      rewrite <- (FetchFacts.fold_left_map
                    (fun s p => Fetch.resume (rpc p) s) (child prefix)).
      destruct (FetchFacts.fold_request_frame
                  (map (child prefix) (seq 0 256)) st) as [Hcount1 Hstream1].
      destruct (FetchFacts.fold_resume_walk rpc
                  (map (child prefix) (arrival prefix))
                  (fold_left (fun s p => request p s)
                     (map (child prefix) (seq 0 256)) st))
        as [Hcount2 Hstream2].
      split; [by rewrite Hcount2, Hcount1|].
      intros acc Hacc. by apply Hstream2, Hstream1.
    + apply (fold_completion (fun i s => fetchChunks (child prefix i) n s)).
      intros i s. apply IH.
Qed.

Lemma completionOrder_sequential levelsRemaining prefix :
  QUICK_MODE = false ->
  completionOrder prefix levelsRemaining
  = chunkAddresses prefix levelsRemaining.
Proof.
  intros ->. revert prefix.
  induction levelsRemaining as [|n IH]; intros prefix; [reflexivity|].
  cbn [Completion.completionOrder chunkAddresses andb].
  induction (seq 0 256) as [|i l IHl]; [reflexivity|].
  cbn [flat_map]. by rewrite IH, IHl.
Qed.

Lemma fetchStorage_text chunksLevel :
  stream (fetchStorage rpc QUICK_MODE arrival chunksLevel)
  = JSON.stringify (pairsValue (flat_map rpc (completionOrder "0x" chunksLevel)))
  /\ separator (fetchStorage rpc QUICK_MODE arrival chunksLevel)
     = match flat_map rpc (completionOrder "0x" chunksLevel) with
       | [] => false
       | _ :: _ => true
       end
  /\ chunksFetched (fetchStorage rpc QUICK_MODE arrival chunksLevel)
     = length (completionOrder "0x" chunksLevel).
Proof.
  destruct (completion_fetchChunks chunksLevel "0x" (write "[" initial))
    as [Hcount Hstream].
  destruct (Hstream [] FetchFacts.Streamed_initial) as [Hs Hsep].
  cbn [app] in Hs, Hsep. unfold fetchStorage. cbn [write stream separator chunksFetched].
  split; [|split; [exact Hsep|by rewrite Hcount]].
  rewrite Hs. unfold pairsValue. cbn [JSON.stringify].
  by rewrite append_assoc.
Qed.

End Walk.

End FetchMore.

(** ** The order of the requests *)

Module OrderFacts.

Import Fetch Keyspace StringFacts.

Lemma ascii_compare_refl c : Ascii.compare c c = Eq.
Proof. unfold Ascii.compare. apply N.compare_refl. Qed.

Lemma compare_append a x y :
  String.compare (a +:+ x) (a +:+ y) = String.compare x y.
Proof.
  induction a as [|c a IH]; [reflexivity|].
  rewrite !append_cons. cbn [String.compare]. by rewrite ascii_compare_refl.
Qed.

(** Two heads of the same length decide the comparison when they differ. *)
Lemma compare_heads a b x y :
  String.length a = String.length b ->
  String.compare a b = Lt ->
  String.compare (a +:+ x) (b +:+ y) = Lt.
Proof.
  revert b. induction a as [|c a IH]; intros [|d b] Hlen Hlt;
    try discriminate Hlen; try discriminate Hlt.
  rewrite !append_cons. cbn [String.compare] in Hlt |- *.
  destruct (Ascii.compare c d); [|reflexivity|discriminate Hlt].
  injection Hlen as Hlen. by apply IH.
Qed.

Lemma child_length prefix i :
  In i (seq 0 256) ->
  String.length (child prefix i) = String.length prefix + 2.
Proof.
  intros Hi. apply KeyspaceFacts.index_byte in Hi as [b <-].
  by rewrite KeyspaceFacts.child_byte, length_append,
       KeyspaceFacts.byteHex_length.
Qed.

(** The two digits of a smaller byte come first. *)
Lemma child_digits_increasing i j :
  i < j -> j < 256 ->
  String.compare (JS.padStart 2 "0" (JS.toString16 i))
                 (JS.padStart 2 "0" (JS.toString16 j)) = Lt.
Proof.
  intros Hij Hj.
  assert (forallb (fun i =>
            forallb (fun j =>
              if (i <? j)%nat
              then match String.compare (JS.padStart 2 "0" (JS.toString16 i))
                                        (JS.padStart 2 "0" (JS.toString16 j))
                   with Lt => true | _ => false end
              else true) (seq 0 256)) (seq 0 256) = true) as Hall
      by (vm_compute; reflexivity).
  rewrite forallb_forall in Hall.
  specialize (Hall i ltac:(apply in_seq; lia)).
  rewrite forallb_forall in Hall.
  specialize (Hall j ltac:(apply in_seq; lia)).
  apply Nat.ltb_lt in Hij. rewrite Hij in Hall.
  by destruct (String.compare _ _).
Qed.

Lemma chunkAddresses_extend prefix n p :
  In p (chunkAddresses prefix n) ->
  exists rest, p = prefix +:+ rest /\ String.length rest = 2 * n.
Proof.
  intros Hp. apply KeyspaceFacts.In_chunkAddresses in Hp as (bs & Hlen & ->).
  exists (hexBytes bs). split; [reflexivity|].
  by rewrite KeyspaceFacts.hexBytes_length, Hlen.
Qed.

Lemma StronglySorted_app {A} (R : A -> A -> Prop) (l1 l2 : list A) :
  StronglySorted R l1 -> StronglySorted R l2 ->
  (forall x y, In x l1 -> In y l2 -> R x y) ->
  StronglySorted R (l1 ++ l2).
Proof.
  intros H1 H2 H12. induction H1 as [|a l1 Hl1 IH Ha]; [exact H2|].
  cbn [app]. constructor.
  - apply IH. intros x y Hx Hy. apply H12; [by right|exact Hy].
  - apply List.Forall_app. split; [exact Ha|].
    apply List.Forall_forall. intros y Hy. apply H12; [by left|exact Hy].
Qed.

Lemma StronglySorted_flat_map {A B} (R : B -> B -> Prop)
    (f : A -> list B) (S : A -> A -> Prop) (l : list A) :
  StronglySorted S l ->
  (forall i, In i l -> StronglySorted R (f i)) ->
  (forall i j x y, In i l -> In j l -> S i j ->
                   In x (f i) -> In y (f j) -> R x y) ->
  StronglySorted R (flat_map f l).
Proof.
  intros Hl. induction Hl as [|a l Hl IH Ha]; intros Hf Hcross;
    [constructor|].
  cbn [flat_map]. apply StronglySorted_app.
  - apply Hf. by left.
  - apply IH.
    + intros i Hi. apply Hf. by right.
    + intros i j x y Hi Hj. apply Hcross; by right.
  - intros x y Hx Hy. apply in_flat_map in Hy as (j & Hj & Hy).
    rewrite List.Forall_forall in Ha.
    apply (Hcross a j); auto using in_eq, in_cons.
Qed.

Lemma seq_StronglySorted start len : StronglySorted lt (seq start len).
Proof.
  revert start. induction len as [|len IH]; intros start; [constructor|].
  cbn [seq]. constructor; [apply IH|].
  apply List.Forall_forall. intros j Hj. apply in_seq in Hj. lia.
Qed.

Lemma chunkAddresses_increasing prefix n :
  StronglySorted (fun p q => String.compare p q = Lt) (chunkAddresses prefix n).
Proof.
  revert prefix. induction n as [|n IH]; intros prefix; cbn [chunkAddresses].
  - repeat constructor.
  - apply (StronglySorted_flat_map _ _ lt).
    + apply seq_StronglySorted.
    + intros i _. apply IH.
    + intros i j p q Hi Hj Hij Hp Hq.
      apply chunkAddresses_extend in Hp as (x & -> & _).
      apply chunkAddresses_extend in Hq as (y & -> & _).
      unfold child. rewrite !append_assoc, compare_append.
      apply in_seq in Hj.
      apply compare_heads; [|apply child_digits_increasing; lia].
      apply KeyspaceFacts.index_byte in Hi as [a <-].
      pose proof (KeyspaceFacts.byteHex_length a) as Ha.
      assert (In j (seq 0 256)) as Hj' by (apply in_seq; lia).
      apply KeyspaceFacts.index_byte in Hj' as [b <-].
      pose proof (KeyspaceFacts.byteHex_length b) as Hb.
      unfold byteHex in Ha, Hb. by rewrite Ha, Hb.
Qed.

End OrderFacts.

(** ** Properties of the fetch *)

Module FetchProperties.

Import Fetch Keyspace Completion StringFacts.

Lemma completionOrder_in_order arrival levelsRemaining prefix :
  (forall p, arrival p = seq 0 256) ->
  completionOrder true arrival prefix levelsRemaining
  = chunkAddresses prefix levelsRemaining.
Proof.
  intros Harrival. revert prefix.
  induction levelsRemaining as [|n IH]; intros prefix; [reflexivity|].
  cbn [completionOrder chunkAddresses andb].
  destruct (S n =? 1)%nat eqn:Hn.
  - apply Nat.eqb_eq in Hn. injection Hn as ->. cbn [chunkAddresses].
    by rewrite Harrival, FetchFacts.flat_map_singleton.
  - apply flat_map_ext. intros i. apply IH.
Qed.

Lemma state_eq (st st' : state) :
  separator st = separator st' -> chunksFetched st = chunksFetched st' ->
  stream st = stream st' -> requests st = requests st' -> st = st'.
Proof. destruct st, st'. cbn. by intros -> -> -> ->. Qed.

Lemma flat_map_all_nil {A B} (f : A -> list B) (l : list A) :
  (forall x, f x = []) -> flat_map f l = [].
Proof.
  intros Hf. induction l as [|x l IH]; [reflexivity|].
  cbn [flat_map]. by rewrite Hf, IH.
Qed.

Lemma Extends_refl st : Appending.Extends st st.
Proof. split; [|done]. exists "". by rewrite append_nil_r. Qed.

Lemma Extends_trans st1 st2 st3 :
  Appending.Extends st1 st2 -> Appending.Extends st2 st3 ->
  Appending.Extends st1 st3.
Proof.
  intros [[t1 H1] Hs1] [[t2 H2] Hs2]. split; [|auto].
  exists (t1 +:+ t2). by rewrite H2, H1, append_assoc.
Qed.

Lemma Extends_request p st : Appending.Extends st (request p st).
Proof. split; [|done]. exists "". cbn. by rewrite append_nil_r. Qed.

Lemma Extends_resume pairs st : Appending.Extends st (Fetch.resume pairs st).
Proof.
  unfold Fetch.resume. destruct (0 <? length pairs)%nat.
  - destruct (separator st) eqn:Hsep; (split; [|done]); cbn.
    + eexists. by rewrite append_assoc.
    + eexists. reflexivity.
  - split; [|done]. exists "". cbn. by rewrite append_nil_r.
Qed.

Lemma Extends_fold {A} (f : A -> state -> state) (l : list A) st :
  (forall x s, Appending.Extends s (f x s)) ->
  Appending.Extends st (fold_left (fun s x => f x s) l st).
Proof.
  intros Hf. revert st. induction l as [|x l IH]; intros st; cbn [fold_left].
  - apply Extends_refl.
  - eapply Extends_trans; [apply Hf|apply IH].
Qed.

Lemma Extends_fetchChunks rpc quick arrival levelsRemaining prefix st :
  Appending.Extends st (fetchChunks rpc quick arrival prefix levelsRemaining st).
Proof.
  revert prefix st. induction levelsRemaining as [|n IH]; intros prefix st.
  - cbn [fetchChunks].
    eapply Extends_trans; [apply Extends_request|apply Extends_resume].
  - cbn [fetchChunks]. destruct (quick && (S n =? 1)%nat).
    + eapply Extends_trans.
      * apply (Extends_fold (fun i s => request (child prefix i) s)).
        intros i s. apply Extends_request.
      * apply (Extends_fold
                 (fun i s => Fetch.resume (rpc (child prefix i)) s)).
        intros i s. apply Extends_resume.
    + apply (Extends_fold
               (fun i s => fetchChunks rpc quick arrival (child prefix i) n s)).
      intros i s. apply IH.
Qed.

(** X1. When the fetch returns, the counter of fetched chunks equals
    [totalChunks], the total the progress bar was started with, and the
    number of requests made, however many chunks were empty and in either
    mode. *)
Theorem progress_completes rpc quick arrival chunksLevel :
  (quick = true -> forall prefix, Permutation (arrival prefix) (seq 0 256)) ->
  let st := fetchStorage rpc quick arrival chunksLevel in
  chunksFetched st = totalChunks chunksLevel
  /\ chunksFetched st = length (requests st).
Proof.
  intros Harrival st. unfold st.
  rewrite (FetchFacts.fetchStorage_count rpc quick arrival Harrival).
  split; [reflexivity|].
  by rewrite FetchFacts.fetchStorage_requests,
       KeyspaceFacts.chunkAddresses_length.
Qed.

Lemma progress_completes_witness :
  (true = true ->
   forall prefix : string, Permutation (rev (seq 0 256)) (seq 0 256))
  /\ chunksFetched (fetchStorage sampleRpc true (fun _ => rev (seq 0 256)) 1)
     = totalChunks 1
  /\ chunksFetched (fetchStorage sampleRpc true (fun _ => rev (seq 0 256)) 1)
     = length (requests (fetchStorage sampleRpc true
                           (fun _ => rev (seq 0 256)) 1)).
Proof.
  assert (true = true ->
          forall prefix : string, Permutation (rev (seq 0 256)) (seq 0 256))
    as H by (intros _ _; symmetry; apply Permutation_rev).
  split; [exact H|].
  exact (progress_completes sampleRpc true (fun _ => rev (seq 0 256)) 1 H).
Defined.

(** X2. The range queries of a fetch, and their order, depend on the depth
    alone: not on the mode, not on the order in which answers arrive, and
    not on what the node answers. *)
Theorem requests_depend_on_depth_only rpc quick arrival rpc' quick' arrival'
    chunksLevel :
  requests (fetchStorage rpc quick arrival chunksLevel)
  = requests (fetchStorage rpc' quick' arrival' chunksLevel).
Proof. by rewrite !FetchFacts.fetchStorage_requests. Qed.

(** X3. The prefixes are requested in strictly increasing lexicographic
    order. *)
Theorem requests_increasing rpc quick arrival chunksLevel :
  StronglySorted (fun p q => String.compare p q = Lt)
                 (requests (fetchStorage rpc quick arrival chunksLevel)).
Proof.
  rewrite FetchFacts.fetchStorage_requests.
  apply OrderFacts.chunkAddresses_increasing.
Qed.

(** X4. The file written fragment by fragment is, byte for byte, the text
    [JSON.stringify] gives for the one array of all pairs, in the order in
    which the answers were processed; the separator flag is set exactly when
    a pair was written; and outside quick mode that order is the order of
    the requests. *)
Theorem file_is_one_stringify rpc quick arrival chunksLevel :
  let st := fetchStorage rpc quick arrival chunksLevel in
  let pairs := flat_map rpc (completionOrder quick arrival "0x" chunksLevel) in
  stream st = JSON.stringify (pairsValue pairs)
  /\ separator st = match pairs with [] => false | _ :: _ => true end
  /\ completionOrder false arrival "0x" chunksLevel = requests st.
Proof.
  intros st pairs. unfold st, pairs.
  destruct (FetchMore.fetchStorage_text rpc quick arrival chunksLevel)
    as (Hs & Hsep & _).
  split; [exact Hs|]. split; [exact Hsep|].
  rewrite FetchFacts.fetchStorage_requests.
  by apply FetchMore.completionOrder_sequential.
Qed.

(** X5. When the node has no pair under any prefix, the file is the empty
    array and the separator flag is never set. *)
Theorem empty_node_file rpc quick arrival chunksLevel :
  (forall prefix, rpc prefix = []) ->
  let st := fetchStorage rpc quick arrival chunksLevel in
  stream st = "[]" /\ separator st = false
  /\ JSON.parse (stream st) = Some (JSON.JArr []).
Proof.
  intros Hempty st. unfold st.
  destruct (FetchMore.fetchStorage_text rpc quick arrival chunksLevel)
    as (Hs & Hsep & _).
  rewrite (flat_map_all_nil rpc _ Hempty) in Hs, Hsep.
  rewrite Hs. by repeat split.
Qed.

Lemma empty_node_file_witness :
  (forall prefix : string, (fun _ : string => @nil (string * string)) prefix = [])
  /\ stream (fetchStorage (fun _ => []) true (fun _ => rev (seq 0 256)) 2)
     = "[]"
  /\ separator (fetchStorage (fun _ => []) true (fun _ => rev (seq 0 256)) 2)
     = false
  /\ JSON.parse
       (stream (fetchStorage (fun _ => []) true (fun _ => rev (seq 0 256)) 2))
     = Some (JSON.JArr []).
Proof.
  assert (forall prefix : string,
            (fun _ : string => @nil (string * string)) prefix = [])
    as H by reflexivity.
  split; [exact H|].
  exact (empty_node_file (fun _ => []) true (fun _ => rev (seq 0 256)) 2 H).
Defined.

(** X6. In quick mode, when the answers below every prefix arrive in the
    order of the requests, the fetch ends in the same state as outside quick
    mode: the same file, flag, counter and requests. *)
Theorem quick_in_order_is_sequential rpc arrival arrival' chunksLevel :
  (forall prefix, arrival prefix = seq 0 256) ->
  fetchStorage rpc true arrival chunksLevel
  = fetchStorage rpc false arrival' chunksLevel.
Proof.
  intros Harrival.
  destruct (FetchMore.fetchStorage_text rpc true arrival chunksLevel)
    as (Hs & Hsep & Hcount).
  destruct (FetchMore.fetchStorage_text rpc false arrival' chunksLevel)
    as (Hs' & Hsep' & Hcount').
  rewrite (completionOrder_in_order arrival _ _ Harrival) in Hs, Hsep, Hcount.
  rewrite (FetchMore.completionOrder_sequential false arrival')
    in Hs', Hsep', Hcount' by reflexivity.
  apply state_eq; [congruence|congruence|congruence|].
  by rewrite !FetchFacts.fetchStorage_requests.
Qed.

Lemma quick_in_order_is_sequential_witness :
  (forall prefix : string, (fun _ : string => seq 0 256) prefix = seq 0 256)
  /\ fetchStorage sampleRpc true (fun _ => seq 0 256) 1
     = fetchStorage sampleRpc false (fun _ => []) 1.
Proof.
  assert (forall prefix : string,
            (fun _ : string => seq 0 256) prefix = seq 0 256)
    as H by reflexivity.
  split; [exact H|].
  exact (quick_in_order_is_sequential sampleRpc (fun _ => seq 0 256)
           (fun _ => []) 1 H).
Defined.

(** X12. A walk below any prefix, started in any state, only appends: the
    text already in the file stays at its start, the separator flag is not
    reset once set, the requests made before come first and are followed by
    the chunk addresses below the prefix, and the counter grows by the
    number of answers processed. *)
Theorem walk_only_appends rpc quick arrival prefix levelsRemaining st :
  let st' := fetchChunks rpc quick arrival prefix levelsRemaining st in
  (exists text, stream st' = stream st +:+ text)
  /\ (separator st = true -> separator st' = true)
  /\ requests st' = requests st ++ chunkAddresses prefix levelsRemaining
  /\ chunksFetched st'
     = chunksFetched st
       + length (completionOrder quick arrival prefix levelsRemaining).
Proof.
  intros st'. unfold st'.
  destruct (Extends_fetchChunks rpc quick arrival levelsRemaining prefix st)
    as [Htext Hsep].
  split; [exact Htext|]. split; [exact Hsep|]. split.
  - apply FetchFacts.requests_fetchChunks.
  - apply FetchMore.completion_fetchChunks.
Qed.

End FetchProperties.

(** ** More about the splice *)

Module SpliceMore.

Import Main StringFacts.

(** *** The runtime code *)

Lemma trimStart_noWhiteSpace s :
  Runtime.noWhiteSpace s = true -> JS.trimStart s = s.
Proof.
  destruct s as [|c s]; [reflexivity|]. cbn [Runtime.noWhiteSpace JS.trimStart].
  intros H. apply andb_true_iff in H as [Hc _].
  by destruct (JS.isWhiteSpace c).
Qed.

Lemma trimEnd_noWhiteSpace s :
  Runtime.noWhiteSpace s = true -> JS.trimEnd s = s.
Proof.
  induction s as [|c s IH]; [reflexivity|].
  cbn [Runtime.noWhiteSpace JS.trimEnd]. intros H.
  apply andb_true_iff in H as [Hc Hs]. rewrite (IH Hs).
  destruct s; [|reflexivity]. by destruct (JS.isWhiteSpace c).
Qed.

Lemma trim_noWhiteSpace s : Runtime.noWhiteSpace s = true -> JS.trim s = s.
Proof.
  intros H. unfold JS.trim.
  by rewrite (trimStart_noWhiteSpace s H), (trimEnd_noWhiteSpace s H).
Qed.

Lemma noWhiteSpace_append a b :
  Runtime.noWhiteSpace (a +:+ b)
  = Runtime.noWhiteSpace a && Runtime.noWhiteSpace b.
Proof.
  induction a as [|c a IH]; [reflexivity|].
  rewrite append_cons. cbn [Runtime.noWhiteSpace].
  by rewrite IH, andb_assoc.
Qed.

Lemma byteHex_noWhiteSpace b : Runtime.noWhiteSpace (Keyspace.byteHex b) = true.
Proof. destruct b; vm_compute; reflexivity. Qed.

Lemma hexdump_noWhiteSpace wasm :
  Runtime.noWhiteSpace (Runtime.hexdump wasm) = true.
Proof.
  unfold Runtime.hexdump. induction wasm as [|b wasm IH]; [reflexivity|].
  cbn [Keyspace.hexBytes].
  by rewrite noWhiteSpace_append, byteHex_noWhiteSpace, IH.
Qed.

Lemma byteHex_two b :
  exists x y, Keyspace.byteHex b = String x (String y EmptyString).
Proof. destruct b; vm_compute; eauto. Qed.

Lemma decodeHex_hexBytes bs : Runtime.decodeHex (Keyspace.hexBytes bs) = Some bs.
Proof.
  induction bs as [|b bs IH]; [reflexivity|]. cbn [Keyspace.hexBytes].
  pose proof (KeyspaceFacts.decode_byteHex b) as Hb.
  destruct (byteHex_two b) as (x & y & Hxy). rewrite Hxy in Hb |- *.
  rewrite !append_cons, append_nil_l. cbn [Runtime.decodeHex].
  by rewrite Hb, IH.
Qed.

Lemma decode0x_keyOfBytes bs :
  Runtime.decode0x (Keyspace.keyOfBytes bs) = Some bs.
Proof.
  unfold Keyspace.keyOfBytes. rewrite !append_cons, append_nil_l.
  cbn [Runtime.decode0x]. apply decodeHex_hexBytes.
Qed.

(** *** Runs of assignments *)

Lemma lookup_assignments_In (l : list (string * string))
    (t : gmap string string) k v :
  List.NoDup (map fst l) -> In (k, v) l ->
  fold_left assignPair l t !! k = Some v.
Proof.
  intros Hnd Hin. apply in_split in Hin as (l1 & l2 & ->).
  apply MainFacts.lookup_assignments_last.
  rewrite map_app in Hnd. cbn [map fst] in Hnd.
  apply List.NoDup_remove_2 in Hnd. intros H. apply Hnd.
  apply in_or_app. by right.
Qed.

Lemma assignments_Permutation (l1 l2 : list (string * string))
    (t : gmap string string) :
  Permutation l1 l2 -> List.NoDup (map fst l1) ->
  fold_left assignPair l1 t = fold_left assignPair l2 t.
Proof.
  intros Hperm Hnd1.
  assert (List.NoDup (map fst l2)) as Hnd2
      by (eapply Permutation_NoDup; [apply Permutation_map, Hperm|exact Hnd1]).
  apply map_eq. intros k.
  destruct (in_dec string_dec k (map fst l1)) as [Hin|Hout].
  - apply in_map_iff in Hin as ([k' v] & Hk & Hin). cbn [fst] in Hk. subst k'.
    rewrite (lookup_assignments_In l1 t k v Hnd1 Hin).
    symmetry. apply lookup_assignments_In; [exact Hnd2|].
    by apply (Permutation_in _ Hperm).
  - rewrite MainFacts.lookup_assignments_other by exact Hout.
    symmetry. apply MainFacts.lookup_assignments_other.
    intros Hin. apply Hout.
    apply (Permutation_in _ (Permutation_sym (Permutation_map fst Hperm))).
    exact Hin.
Qed.

Lemma filter_Permutation {A} (f : A -> bool) (l1 l2 : list A) :
  Permutation l1 l2 -> Permutation (List.filter f l1) (List.filter f l2).
Proof.
  induction 1 as [|x l1 l2 _ IH|x y l|l1 l2 l3 _ IH1 _ IH2];
    cbn [List.filter].
  - constructor.
  - destruct (f x); [by constructor|exact IH].
  - destruct (f x), (f y); try reflexivity. constructor.
  - by etransitivity.
Qed.

Lemma filter_keys_NoDup {B} (f : string * B -> bool) (l : list (string * B)) :
  List.NoDup (map fst l) -> List.NoDup (map fst (List.filter f l)).
Proof.
  induction l as [|i l IH]; intros Hnd; [constructor|].
  cbn [map] in Hnd. apply List.NoDup_cons_iff in Hnd as [Hi Hnd].
  cbn [List.filter]. destruct (f i); [|by apply IH].
  cbn [map]. constructor; [|by apply IH].
  intros Hin. apply Hi. apply in_map_iff in Hin as (j & Hj & Hin).
  apply filter_In in Hin as [Hin _]. apply in_map_iff. by exists j.
Qed.

(** The forked specification after the splice does not depend on the order
    of a snapshot without repeated keys. *)
Lemma forkedSpec_splice_Permutation {JSValue : Type} hex ps
    (o f : @GenesisSpec JSValue) s1 s2 :
  Permutation s1 s2 -> List.NoDup (map fst s1) ->
  forkedSpec (splice hex {| prefixes := ps; storage := s1;
                            originalSpec := o; forkedSpec := f |})
  = forkedSpec (splice hex {| prefixes := ps; storage := s2;
                              originalSpec := o; forkedSpec := f |}).
Proof.
  intros Hperm Hnd. rewrite !MainFacts.splice_eq. cbn [forkedSpec].
  f_equal. cbn [prefixes storage forkedSpec top]. f_equal.
  apply assignments_Permutation.
  - by apply filter_Permutation.
  - by apply filter_keys_NoDup.
Qed.

(** *** The entries of the output *)

Lemma lastValue_snoc k (l : list (string * string)) i :
  Precedence.lastValue k (l ++ [i])
  = if (fst i =? k)%string then Some (snd i) else Precedence.lastValue k l.
Proof. unfold Precedence.lastValue. by rewrite fold_left_app. Qed.

Lemma lookup_assignments_lastValue (l : list (string * string))
    (t : gmap string string) k :
  fold_left assignPair l t !! k
  = match Precedence.lastValue k l with
    | Some v => Some v
    | None => t !! k
    end.
Proof.
  induction l as [|i l IH] using rev_ind; [reflexivity|].
  rewrite fold_left_app, lastValue_snoc. cbn [fold_left].
  unfold assignPair at 1. destruct (String.eqb_spec (fst i) k) as [<-|Hne].
  - apply lookup_insert_eq.
  - by rewrite lookup_insert_ne.
Qed.

Lemma lookup_overrides_tableRow hex (t : gmap string string) k :
  fold_left applyOverride (overrideTable hex) t !! k
  = match Precedence.tableRow hex k with
    | Some row => row
    | None => t !! k
    end.
Proof.
  unfold Precedence.tableRow.
  destruct (find _ (overrideTable hex)) as [[k' row]|] eqn:Hfind;
    cbn [option_map snd].
  - apply find_some in Hfind as [Hin Hk]. cbn [fst] in Hk.
    apply String.eqb_eq in Hk. subst k'.
    apply MainFacts.lookup_overrides_row;
      [apply MainFacts.overrideTable_keys_NoDup|exact Hin].
  - apply MainFacts.lookup_overrides_other. intros Hin.
    apply in_map_iff in Hin as ([k' row] & Hk & Hin). cbn [fst] in Hk.
    subst k'. pose proof (find_none _ _ Hfind _ Hin) as Hno.
    cbn [fst] in Hno. by rewrite String.eqb_refl in Hno.
Qed.

Lemma dom_assignments (l : list (string * string)) (t : gmap string string) :
  dom (fold_left assignPair l t) = dom t ∪ list_to_set (map fst l).
Proof.
  revert t. induction l as [|i l IH]; intros t; cbn [fold_left map].
  - cbn [list_to_set]. by rewrite (right_id_L ∅ (∪)).
  - rewrite IH. unfold assignPair at 1. rewrite dom_insert_L.
    cbn [list_to_set].
    by rewrite (comm_L (∪) {[fst i]} (dom t)), (assoc_L (∪)).
Qed.

End SpliceMore.

(** ** Properties of the splice, and of the fetch followed by the splice *)

Module SpliceProperties.

Import Main StringFacts.

Lemma flat_map_Permutation_pointwise {A B} (f g : A -> list B) (l : list A) :
  (forall x, Permutation (f x) (g x)) ->
  Permutation (flat_map f l) (flat_map g l).
Proof.
  intros Hfg. induction l as [|x l IH]; [constructor|].
  cbn [flat_map]. by apply Permutation_app.
Qed.

Lemma completionOrder_Permutation quick arrival levelsRemaining prefix :
  (quick = true -> forall p, Permutation (arrival p) (seq 0 256)) ->
  Permutation (Completion.completionOrder quick arrival prefix levelsRemaining)
              (Keyspace.chunkAddresses prefix levelsRemaining).
Proof.
  intros Harrival. revert prefix.
  induction levelsRemaining as [|n IH]; intros prefix; [reflexivity|].
  cbn [Completion.completionOrder Keyspace.chunkAddresses].
  destruct (quick && (S n =? 1)%nat) eqn:Hquick.
  - apply andb_true_iff in Hquick as [Hq Hn]. apply Nat.eqb_eq in Hn.
    injection Hn as ->. cbn [Keyspace.chunkAddresses].
    rewrite FetchFacts.flat_map_singleton.
    by apply Permutation_map, Harrival.
  - apply flat_map_Permutation_pointwise. intros i. apply IH.
Qed.

(** X7. With [runtime.hex] as the hexdump command writes it, the code entry
    of the output is "0x" followed by two hexadecimal digits for each byte
    of the runtime blob, trimming removes nothing, and the entry decodes
    back to the blob, byte for byte. *)
Theorem runtime_code_is_blob {JSValue : Type} wasm (st : @state JSValue) :
  top (forkedSpec (splice (Runtime.hexdump wasm) st)) !! codeKey
  = Some (Keyspace.keyOfBytes wasm)
  /\ JS.trim (Runtime.hexdump wasm) = Runtime.hexdump wasm
  /\ Runtime.decode0x (Keyspace.keyOfBytes wasm) = Some wasm
  /\ String.length (Keyspace.keyOfBytes wasm) = 2 + 2 * length wasm.
Proof.
  assert (JS.trim (Runtime.hexdump wasm) = Runtime.hexdump wasm) as Htrim
      by apply SpliceMore.trim_noWhiteSpace, SpliceMore.hexdump_noWhiteSpace.
  split; [|split; [exact Htrim|split]].
  - rewrite MainFacts.splice_top.
    rewrite (MainFacts.lookup_overrides_row _ _ codeKey
               (Some ("0x" +:+ JS.trim (Runtime.hexdump wasm)))).
    + by rewrite Htrim.
    + apply MainFacts.overrideTable_keys_NoDup.
    + right. left. reflexivity.
  - apply SpliceMore.decode0x_keyOfBytes.
  - unfold Keyspace.keyOfBytes.
    rewrite length_append, KeyspaceFacts.hexBytes_length. reflexivity.
Qed.

(** X8. For a snapshot in which no key occurs twice, the forked
    specification after the splice does not depend on the order of the
    pairs in the snapshot. *)
Theorem snapshot_order_irrelevant {JSValue : Type} hex ps
    (o f : @GenesisSpec JSValue) s1 s2 :
  Permutation s1 s2 -> List.NoDup (map fst s1) ->
  forkedSpec (splice hex {| prefixes := ps; storage := s1;
                            originalSpec := o; forkedSpec := f |})
  = forkedSpec (splice hex {| prefixes := ps; storage := s2;
                              originalSpec := o; forkedSpec := f |}).
Proof. apply SpliceMore.forkedSpec_splice_Permutation. Qed.

Lemma snapshot_order_irrelevant_witness :
  Permutation sampleStorage (rev sampleStorage)
  /\ List.NoDup (map fst sampleStorage)
  /\ forkedSpec (splice "00" sampleState)
     = forkedSpec (splice "00"
         {| prefixes := prefixes sampleState; storage := rev sampleStorage;
            originalSpec := sampleOriginal; forkedSpec := sampleForked |}).
Proof.
  assert (Permutation sampleStorage (rev sampleStorage))
    as H1 by apply Permutation_rev.
  assert (List.NoDup (map fst sampleStorage)) as H2
      by (vm_compute; repeat constructor; cbn; intuition discriminate).
  split; [exact H1|]. split; [exact H2|].
  exact (snapshot_order_irrelevant "00" (prefixes sampleState)
           sampleOriginal sampleForked sampleStorage (rev sampleStorage)
           H1 H2).
Defined.

(** X9. From the node to the forked specification: when the answers of the
    node hold no key twice, the file of a fetch in quick mode, whatever the
    order of arrival, and the file of a fetch outside quick mode parse to
    arrays of pairs from which [main] produces the same forked
    specification. *)
Theorem quick_mode_same_fork {JSValue : Type} xxhashAsHex rpc arrival arrival'
    modules (original forked : @GenesisSpec JSValue) hex chunksLevel :
  (forall prefix, Permutation (arrival prefix) (seq 0 256)) ->
  List.NoDup
    (map fst (flat_map rpc
       (Fetch.requests (Fetch.fetchStorage rpc false arrival' chunksLevel)))) ->
  let quickPairs :=
    flat_map rpc (Completion.completionOrder true arrival "0x" chunksLevel) in
  let plainPairs :=
    flat_map rpc (Completion.completionOrder false arrival' "0x" chunksLevel) in
  JSON.parse (Fetch.stream (Fetch.fetchStorage rpc true arrival chunksLevel))
  = Some (Fetch.pairsValue quickPairs)
  /\ JSON.parse (Fetch.stream (Fetch.fetchStorage rpc false arrival' chunksLevel))
     = Some (Fetch.pairsValue plainPairs)
  /\ forkedSpec (main xxhashAsHex modules quickPairs original forked hex)
     = forkedSpec (main xxhashAsHex modules plainPairs original forked hex).
Proof.
  intros Harrival Hnd quickPairs plainPairs.
  destruct (FetchMore.fetchStorage_text rpc true arrival chunksLevel)
    as (Hq & _ & _).
  destruct (FetchMore.fetchStorage_text rpc false arrival' chunksLevel)
    as (Hp & _ & _).
  split; [rewrite Hq; apply JSONFacts.parse_stringify|].
  split; [rewrite Hp; apply JSONFacts.parse_stringify|].
  rewrite FetchFacts.fetchStorage_requests in Hnd.
  assert (plainPairs = flat_map rpc (Keyspace.chunkAddresses "0x" chunksLevel))
    as Hplain
      by (unfold plainPairs;
          by rewrite FetchMore.completionOrder_sequential).
  assert (Permutation plainPairs quickPairs) as Hperm.
  { rewrite Hplain. unfold quickPairs. apply Permutation_flat_map.
    symmetry. apply completionOrder_Permutation. intros _. exact Harrival. }
  rewrite <- Hplain in Hnd.
  rewrite !MainFacts.main_eq. cbn [forkedSpec]. f_equal. symmetry. f_equal.
  apply SpliceMore.assignments_Permutation.
  - by apply SpliceMore.filter_Permutation.
  - by apply SpliceMore.filter_keys_NoDup.
Qed.

Lemma quick_mode_same_fork_witness :
  (forall prefix : string, Permutation (rev (seq 0 256)) (seq 0 256))
  /\ List.NoDup
       (map fst (flat_map sampleRpc
          (Fetch.requests (Fetch.fetchStorage sampleRpc false (fun _ => []) 1))))
  /\ forkedSpec
       (main sampleHash sampleModules
          (flat_map sampleRpc
             (Completion.completionOrder true (fun _ => rev (seq 0 256)) "0x" 1))
          sampleOriginal sampleForked "00")
     = forkedSpec
         (main sampleHash sampleModules
            (flat_map sampleRpc
               (Completion.completionOrder false (fun _ => []) "0x" 1))
            sampleOriginal sampleForked "00").
Proof.
  assert (forall prefix : string, Permutation (rev (seq 0 256)) (seq 0 256))
    as H1 by (intros _; symmetry; apply Permutation_rev).
  assert (List.NoDup
            (map fst (flat_map sampleRpc
               (Fetch.requests
                  (Fetch.fetchStorage sampleRpc false (fun _ => []) 1)))))
    as H2 by (vm_compute; repeat constructor; cbn; intuition discriminate).
  split; [exact H1|]. split; [exact H2|].
  destruct (quick_mode_same_fork sampleHash sampleRpc
              (fun _ => rev (seq 0 256)) (fun _ => []) sampleModules
              sampleOriginal sampleForked "00" 1 H1 H2) as (_ & _ & Hsame).
  exact Hsame.
Defined.

(** X10. The keys of the storage map of the output are those of the
    template and of the pairs moved from the snapshot, without
    System.LastRuntimeUpgrade, together with the six keys assigned after
    the deletion: no other key is removed and no other key appears. *)
Theorem output_keys {JSValue : Type} hex (st : @state JSValue) :
  dom (top (forkedSpec (splice hex st)))
  = (dom (top (forkedSpec st))
     ∪ list_to_set (map fst (List.filter (selected (prefixes st)) (storage st))))
    ∖ {[LastRuntimeUpgrade]}
    ∪ list_to_set [codeKey; ForceEra; HostConfiguration; CouncilMembers;
                   TechnicalCommitteeMembers; Eligibility]
  /\ LastRuntimeUpgrade ∉ dom (top (forkedSpec (splice hex st))).
Proof.
  assert (top (forkedSpec (splice hex st)) !! LastRuntimeUpgrade = None)
    as Hgone.
  { rewrite MainFacts.splice_top.
    apply MainFacts.lookup_overrides_row;
      [apply MainFacts.overrideTable_keys_NoDup|by left]. }
  split; [|by apply not_elem_of_dom].
  rewrite MainFacts.splice_top. cbn [overrideTable fold_left].
  unfold applyOverride. cbn [fst snd].
  rewrite !dom_insert_L, dom_delete_L, SpliceMore.dom_assignments.
  cbn [list_to_set]. apply set_eq. intros k.
  rewrite !elem_of_union, !elem_of_singleton, elem_of_empty. tauto.
Qed.

(** X11. Every entry of the storage map of the output is decided by a fixed
    order of precedence: what the table says for the key if it names it,
    otherwise the value of the last selected pair of the snapshot with that
    key, otherwise the entry of the template. *)
Theorem output_entry_precedence {JSValue : Type} hex (st : @state JSValue) k :
  top (forkedSpec (splice hex st)) !! k = Precedence.expectedEntry hex st k.
Proof.
  rewrite MainFacts.splice_top, SpliceMore.lookup_overrides_tableRow.
  unfold Precedence.expectedEntry.
  destruct (Precedence.tableRow hex k); [reflexivity|].
  apply SpliceMore.lookup_assignments_lastValue.
Qed.

End SpliceProperties.

(** ** The further definitions on small inputs *)

Module MoreSamples.

Example completionOrder_quick_reversed :
  let order := Completion.completionOrder true (fun _ => rev (seq 0 256)) "0x" 1 in
  hd "" order = "0xff" /\ List.last order "" = "0x00" /\ length order = 256.
Proof. vm_compute. by repeat split. Qed.

Example hexdump_magic :
  Runtime.hexdump [Byte.x00; Byte.x61; Byte.x73; Byte.x6d] = "0061736d".
Proof. reflexivity. Qed.

Example decode0x_code : Runtime.decode0x Main.codeKey = Some codeBytes.
Proof. reflexivity. Qed.

Example decode0x_odd : Runtime.decode0x "0x3a6" = None.
Proof. reflexivity. Qed.

Example expectedEntry_sample :
  Precedence.expectedEntry "00" sampleState Main.ForceEra = Some "0x02"
  /\ Precedence.expectedEntry "00" sampleState Main.LastRuntimeUpgrade = None
  /\ Precedence.expectedEntry "00" sampleState (Main.SystemAccount +:+ "aa")
     = Some "0x01"
  /\ Precedence.expectedEntry "00" sampleState "0xbb22" = Some "0x02"
  /\ Precedence.expectedEntry "00" sampleState "0xcc33" = None.
Proof. vm_compute. by repeat split. Qed.

Example lastValue_repeated :
  Precedence.lastValue "0xaa" [("0xaa", "0x01"); ("0xbb", "0x02"); ("0xaa", "0x03")]
  = Some "0x03".
Proof. reflexivity. Qed.

End MoreSamples.
